(** * wwhrd: the license check of [cli.go]

    A shallow embedding of [Check.Execute] (cli.go, lines 104-212), of
    [rootDir] (lines 214-231), of [List.Execute] (lines 59-92) and of
    [setQuiet] (lines 38-41), together with the properties of the policy
    evaluation, of the exception normalisation and of the attribution
    report that the specification states, and further properties of the
    code.

    Go strings are byte strings: they are modelled by [string], whose
    characters are the bytes.  Go maps are modelled by [gmap]; the order in
    which [range] enumerates a map is chosen by the runtime and is an
    explicit input of the model. *)

From Stdlib Require Import ZArith Ascii.
From stdpp Require Import base option list gmap fin_maps strings.

Local Open Scope string_scope.
Local Open Scope list_scope.

(** ** The functions of Go's [strings] package used by [Execute] *)

Module strings.

(** [s[i:j]] for [i <= j <= len(s)]. *)
Definition slice (s : string) (i j : nat) : string :=
  String.substring i (j - i) s.

(** [func HasPrefix(s, prefix string) bool]:
    [len(s) >= len(prefix) && s[:len(prefix)] == prefix]. *)
Definition HasPrefix (s prefix : string) : bool :=
  (String.length prefix <=? String.length s)%nat
  && String.eqb (slice s 0 (String.length prefix)) prefix.

(** [func HasSuffix(s, suffix string) bool]:
    [len(s) >= len(suffix) && s[len(s)-len(suffix):] == suffix]. *)
Definition HasSuffix (s suffix : string) : bool :=
  (String.length suffix <=? String.length s)%nat
  && String.eqb
       (slice s (String.length s - String.length suffix) (String.length s))
       suffix.

(** Membership of a byte in a cutset ([asciiSet.contains]). *)
Fixpoint contains (cutset : string) (c : ascii) : bool :=
  match cutset with
  | EmptyString => false
  | String d rest => Ascii.eqb c d || contains rest c
  end.

(** [func TrimRight(s, cutset string) string]: [s] without its longest
    tail made of bytes of [cutset].  The cutset is a SET of characters,
    not a suffix.  (For a cutset of ASCII characters, which is the only
    use in [Execute], Go trims byte by byte from the end:
    [for len(s) > 0 { if !as.contains(s[len(s)-1]) { break }; s = s[:len(s)-1] }].) *)
Fixpoint TrimRight (s cutset : string) : string :=
  match s with
  | EmptyString => EmptyString
  | String c rest =>
      match TrimRight rest cutset with
      | EmptyString =>
          if contains cutset c then EmptyString else String c EmptyString
      | r => String c r
      end
  end.

(** [func TrimSuffix(s, suffix string) string]; not called by [Execute],
    it is what removing the wildcard marker alone would be. *)
Definition TrimSuffix (s suffix : string) : string :=
  if HasSuffix s suffix
  then slice s 0 (String.length s - String.length suffix)
  else s.

End strings.

(** Every byte of [q] belongs to the cutset. *)
Fixpoint all_in (cutset q : string) : bool :=
  match q with
  | EmptyString => true
  | String c rest => strings.contains cutset c && all_in cutset rest
  end.

(** The last byte of [s], if any, is outside the cutset. *)
Fixpoint ends_clean (cutset s : string) : bool :=
  match s with
  | EmptyString => true
  | String c EmptyString => negb (strings.contains cutset c)
  | String _ rest => ends_clean cutset rest
  end.

(** ** [fmt.Sprintf], for the verbs [Execute] uses *)

Module fmt.

(** [%s] takes the next operand, [%%] is a percent sign, every other
    byte is copied.  A [%s] without operand prints [%!s(MISSING)], as Go
    does; the formats of [cli.go] never get there. *)
Fixpoint Sprintf (format : string) (a : list string) : string :=
  match format with
  | EmptyString => EmptyString
  | String "%" (String "s" rest) =>
      match a with
      | x :: a' => x +:+ Sprintf rest a'
      | [] => "%!s(MISSING)" +:+ Sprintf rest []
      end
  | String "%" (String "%" rest) => String "%" (Sprintf rest a)
  | String c rest => String c (Sprintf rest a)
  end.

End fmt.

(** ** Data model *)

(** Go's [error] values met by [Execute]: the values made by [fmt.Errorf]
    (an error string) and the [*os.PathError] of the [os] package. *)
Inductive error : Type :=
| errorString (s : string)
| PathError (Op Path Err : string).

Definition Error (e : error) : string :=
  match e with
  | errorString s => s
  | PathError op path err => op +:+ " " +:+ path +:+ ": " +:+ err
  end.

Inductive result (T : Type) : Type :=
| Ok (x : T)
| Err (e : error).
Arguments Ok {T} x.
Arguments Err {T} e.

(** Modelled from the spec: the [License] struct is declared outside
    [cli.go]; [Execute] reads its fields [Type], the normalised type tag
    (empty when no license was recognized), and [Text], the raw text. *)
Record License : Type := { Type_ : string; Text : string }.

(** Modelled from the spec: the configuration read by [ReadConfig], three
    lists of strings. *)
Record Config : Type :=
  { Whitelist : list string; Blacklist : list string; Exceptions : list string }.

(** [type Check struct] (lines 24-28). *)
Record Check : Type :=
  { File : string; ReportOut : string; NoColor : bool }.

(** The formatter installed by [log.SetFormatter] (lines 106-110). *)
Inductive TextFormatter : Type := DisableColors | ForceColors.

(** Log records: level, the fields of [contextLogger] and the message. *)
Inductive Level : Type := InfoLevel | WarnLevel | ErrorLevel.

Record Entry : Type :=
  { level : Level; package : string; license : string; message : string }.

(** An [*os.File] opened for writing: what has been written so far, and
    the faults the operating system will answer to the coming writes: one
    item per write, [None] for a write that succeeds, [Some (n, e)] for a
    write that stops with the error [e] after [n] bytes; a write after the
    end of the list succeeds. *)
Record OsFile : Type :=
  { name : string;
    contents : string;
    faults : list (option (nat * string));
    closed : bool }.

(** [func (f *File) WriteString(s string) (n int, err error)]; a failure
    is wrapped in a [*PathError] with [Op = "write"]. *)
Definition WriteString (f : OsFile) (s : string) : OsFile * option error :=
  match faults f with
  | Some (n, e) :: later =>
      ({| name := name f; contents := contents f +:+ String.substring 0 n s;
          faults := later; closed := closed f |},
       Some (PathError "write" (name f) e))
  | None :: later =>
      ({| name := name f; contents := contents f +:+ s; faults := later; closed := closed f |},
       None)
  | [] =>
      ({| name := name f; contents := contents f +:+ s; faults := []; closed := closed f |},
       None)
  end.

(** [func (f *File) Close() error]. *)
Definition Close (f : OsFile) : OsFile :=
  {| name := name f; contents := contents f; faults := faults f; closed := true |}.

(** What lies outside [cli.go]: the collaborators [ReadConfig],
    [WalkImports] and [GetLicenses], the calls into package [os], and the
    order in which the runtime enumerates the map of licenses in this
    run.  [Create] answers an error or the faults of the file it opens;
    [Lstat] answers the file mode. *)
Record World : Type :=
  { ReadConfig : string -> result Config;
    Getwd : result string;
    Lstat : string -> result Z;
    Readlink : string -> result string;
    WalkImports : string -> result (list string);
    GetLicenses : string -> list string -> gmap string License;
    Create : string -> result (list (option (nat * string)));
    rangeOrder : gmap string License -> list (string * License) }.

(** ** Constants of [cli.go] *)

Definition nl : string := String (ascii_of_nat 10) EmptyString.

(** Line 94. *)
Definition licenseReportHeader : string :=
  "THE FOLLOWING SETS FORTH ATTRIBUTION NOTICES FOR THIRD PARTY SOFTWARE THAT MAY BE CONTAINED IN PORTIONS OF THE FLOW PROJECT".

(** Lines 95-102. *)
Definition licenseReportTemplate : string :=
  nl +:+ nl +:+ "---" +:+ nl +:+ nl
  +:+ "The following software may be included in this product: %s. This software contains the following license and notice below:"
  +:+ nl +:+ nl +:+ "%s" +:+ nl.

(** [os.ModeSymlink], bit 27 of the 32-bit file mode. *)
Definition ModeSymlink : Z := Z.shiftl 1 27.

(** ** [rootDir] (lines 214-231) *)

Definition rootDir (w : World) : result string :=
  match Getwd w with
  | Err e => Err e
  | Ok root =>
      match Lstat w root with
      | Err e => Err e
      | Ok mode =>
          if negb (Z.land mode ModeSymlink =? 0)%Z
          then match Readlink w root with
               | Err e => Err e
               | Ok root' => Ok root'
               end
          else Ok root
      end
  end.

(** ** [Check.Execute] (lines 104-212) *)

(** Lines 129-139: [m := make(map[string]bool); for _, v := range l { m[v] = true }]. *)
Definition makeMap (l : list string) : gmap string bool :=
  foldl (fun m v => <[v := true]> m) ∅ l.

(** [m[k]] on a [map[string]bool]: the zero value [false] for a missing key. *)
Definition index (m : gmap string bool) (k : string) : bool :=
  default false (m !! k).

(** [_, exists := m[k]]. *)
Definition exists_ (m : gmap string bool) (k : string) : bool :=
  bool_decide (is_Some (m !! k)).

(** The four maps built by lines 129-150. *)
Record Policy : Type :=
  { blacklist : gmap string bool;
    whitelist : gmap string bool;
    exceptions : gmap string bool;
    exceptionsWildcard : gmap string bool }.

(** Lines 144-150, the body of the loop over [t.Exceptions]; the pair is
    ([exceptions], [exceptionsWildcard]). *)
Definition addException (acc : gmap string bool * gmap string bool) (v : string)
  : gmap string bool * gmap string bool :=
  if strings.HasSuffix v "/..."
  then (acc.1, <[strings.TrimRight v "/..." := true]> acc.2)
  else (<[v := true]> acc.1, acc.2).

Definition makeExceptions (l : list string) : gmap string bool * gmap string bool :=
  foldl addException (∅, ∅) l.

Definition makePolicy (t : Config) : Policy :=
  {| blacklist := makeMap (Blacklist t);
     whitelist := makeMap (Whitelist t);
     exceptions := (makeExceptions (Exceptions t)).1;
     exceptionsWildcard := (makeExceptions (Exceptions t)).2 |}.

(** Lines 190-196: the loop over the wildcard prefixes, [true] when it
    leaves by [continue PackageList]. *)
Fixpoint rangeWildcard (pkg : string) (wcs : list string) : bool :=
  match wcs with
  | [] => false
  | wc :: later =>
      if strings.HasPrefix pkg wc then true else rangeWildcard pkg later
  end.

(** The three ways an iteration of [PackageList] ends, named as the
    specification names them: the [Info] "Found Approved license" branch,
    the two [Warn] "Found exceptioned package" branches, and the fall
    through to [Error] "Found Non-Approved license". *)
Inductive Verdict : Type := Approved | Exceptioned | NonApproved.

(** Lines 183-206: the chain of tests of one iteration. *)
Definition evaluate (p : Policy) (pkg : string) (lic : License) : Verdict :=
  if index (whitelist p) (Type_ lic) && negb (index (blacklist p) (Type_ lic))
  then Approved
  else if bool_decide (0 < size (exceptionsWildcard p))
          && rangeWildcard pkg (map_to_list (exceptionsWildcard p)).*1
  then Exceptioned
  else if exists_ (exceptions p) pkg
  then Exceptioned
  else NonApproved.

(** What [contextLogger] writes in each branch (lines 177-180, 184, 193,
    201, 206). *)
Definition logged (v : Verdict) (pkg : string) (lic : License) : Entry :=
  match v with
  | Approved =>
      {| level := InfoLevel; package := pkg; license := Type_ lic;
         message := "Found Approved license" |}
  | Exceptioned =>
      {| level := WarnLevel; package := pkg; license := Type_ lic;
         message := "Found exceptioned package" |}
  | NonApproved =>
      {| level := ErrorLevel; package := pkg; license := Type_ lic;
         message := "Found Non-Approved license" |}
  end.

(** The verdict a log record stands for. *)
Definition verdictOf (e : Entry) : Verdict :=
  match level e with
  | InfoLevel => Approved
  | WarnLevel => Exceptioned
  | ErrorLevel => NonApproved
  end.

(** The variables of [Execute] that the loop reads and writes: [err],
    [report] and the log. *)
Record Frame : Type :=
  { err : option error; report : option OsFile; logs : list Entry }.

(** Line 171: the block written for one dependency. *)
Definition reportEntry (pkg : string) (lic : License) : string :=
  fmt.Sprintf licenseReportTemplate [pkg; Text lic].

(** Lines 177-207, after the report has been written. *)
Definition judge (p : Policy) (s : Frame) (pkg : string) (lic : License) : Frame :=
  let v := evaluate p pkg lic in
  {| err := match v with
            | NonApproved => Some (errorString "Non-Approved license found")
            | _ => err s
            end;
     report := report s;
     logs := logs s ++ [logged v pkg lic] |}.

(** How an iteration ends. *)
Inductive Flow : Type :=
| Next (s : Frame)
| Return (s : Frame).

(** Lines 168-209, one iteration.  The write of line 171 assigns the
    function's [err]: when it succeeds, [err] is [nil] again. *)
Definition iteration (p : Policy) (s : Frame) (kv : string * License) : Flow :=
  match report s with
  | Some f =>
      let (f', e) := WriteString f (reportEntry kv.1 kv.2) in
      match e with
      | Some _ => Return {| err := e; report := Some f'; logs := logs s |}
      | None => Next (judge p {| err := None; report := Some f'; logs := logs s |} kv.1 kv.2)
      end
  | None => Next (judge p s kv.1 kv.2)
  end.

(** Lines 167-209, over the entries in the order [range] yields them; the
    frame returned is the one in which line 173 or line 211 returns [err]. *)
Fixpoint PackageList (p : Policy) (s : Frame) (order : list (string * License)) : Frame :=
  match order with
  | [] => s
  | kv :: later =>
      match iteration p s kv with
      | Next s' => PackageList p s' later
      | Return s' => s'
      end
  end.

(** What a call of [Execute] leaves behind: the formatter, the log, the
    report file (closed by the deferred [Close]) and the error returned. *)
Record Outcome : Type :=
  { formatter : TextFormatter;
    logged_entries : list Entry;
    reportFile : option OsFile;
    returned : option error }.

(** Lines 154-155: [report] stays [nil] when [c.ReportOut] is empty;
    otherwise [os.Create] answers, with an empty (truncated) file when it
    succeeds. *)
Definition openReport (w : World) (c : Check) : option (result OsFile) :=
  if String.eqb (ReportOut c) "" then None
  else Some match Create w (ReportOut c) with
            | Err e => Err e
            | Ok fs => Ok {| name := ReportOut c; contents := "";
                             faults := fs; closed := false |}
            end.

(** Lines 129-211: from the configuration and the licenses on. *)
Definition audit (fm : TextFormatter) (t : Config)
    (order : list (string * License)) (out : option (result OsFile)) : Outcome :=
  let p := makePolicy t in
  match out with
  | Some (Err e) =>
      {| formatter := fm; logged_entries := []; reportFile := None; returned := Some e |}
  | Some (Ok f) =>
      let (f', e) := WriteString f licenseReportHeader in
      match e with
      | Some _ =>
          {| formatter := fm; logged_entries := [];
             reportFile := Some (Close f'); returned := e |}
      | None =>
          let s := PackageList p {| err := None; report := Some f'; logs := [] |} order in
          {| formatter := fm; logged_entries := logs s;
             reportFile := Close <$> report s; returned := err s |}
      end
  | None =>
      let s := PackageList p {| err := None; report := None; logs := [] |} order in
      {| formatter := fm; logged_entries := logs s;
         reportFile := None; returned := err s |}
  end.

Definition failed (fm : TextFormatter) (e : error) : Outcome :=
  {| formatter := fm; logged_entries := []; reportFile := None; returned := Some e |}.

(** Lines 106-110. *)
Definition SetFormatter (c : Check) : TextFormatter :=
  if NoColor c then DisableColors else ForceColors.

Definition Execute (w : World) (c : Check) : Outcome :=
  let fm := SetFormatter c in
  match ReadConfig w (File c) with
  | Err e => failed fm (errorString (fmt.Sprintf "Can't read config file: %s" [Error e]))
  | Ok t =>
      match rootDir w with
      | Err e => failed fm e
      | Ok root =>
          match WalkImports w root with
          | Err e => failed fm e
          | Ok pkgs =>
              let lics := GetLicenses w root pkgs in
              audit fm t (rangeOrder w lics) (openReport w c)
          end
      end
  end.

(** ** Vocabulary of the statements *)

(** The error of line 207. *)
Definition NonApprovedError : error := errorString "Non-Approved license found".

(** A run of [Execute] that gets as far as the policy: the configuration
    [t] was read, the root and the imports were found, [lics] are the
    licenses detected, and [range] enumerates [lics], each entry once. *)
Definition Setting (w : World) (c : Check) (t : Config)
    (lics : gmap string License) : Prop :=
  ReadConfig w (File c) = Ok t
  /\ exists root pkgs,
       rootDir w = Ok root
       /\ WalkImports w root = Ok pkgs
       /\ GetLicenses w root pkgs = lics
       /\ rangeOrder w lics ≡ₚ map_to_list lics.

(** The first [n] writes to the file succeed. *)
Definition healthy (n : nat) (fs : list (option (nat * string))) : bool :=
  forallb (fun x => bool_decide (x = None)) (take n fs).

(** No report is asked for, or the report is created and its first [n]
    writes succeed. *)
Definition report_sound (n : nat) (w : World) (c : Check) : Prop :=
  ReportOut c = ""
  \/ exists fs, Create w (ReportOut c) = Ok fs /\ healthy n fs = true.

(** The iteration for this entry ends in the [Error] branch. *)
Definition violates (p : Policy) (kv : string * License) : bool :=
  match evaluate p kv.1 kv.2 with
  | NonApproved => true
  | _ => false
  end.

(** The file after a write that succeeds. *)
Definition written (f : OsFile) (s : string) : OsFile :=
  {| name := name f; contents := contents f +:+ s;
     faults := tail (faults f); closed := closed f |}.

(** The log records of a run over [order] that no write interrupts. *)
Definition verdicts (p : Policy) (order : list (string * License)) : list Entry :=
  (fun kv => logged (evaluate p kv.1 kv.2) kv.1 kv.2) <$> order.

(** The blocks of the report for [order], one after the other. *)
Fixpoint render (order : list (string * License)) : string :=
  match order with
  | [] => ""
  | kv :: later => reportEntry kv.1 kv.2 +:+ render later
  end.

(** The fixed text of a block: before the identifier, and between the
    identifier and the license text. *)
Definition entryHead : string :=
  nl +:+ nl +:+ "---" +:+ nl +:+ nl
  +:+ "The following software may be included in this product: ".

Definition entryMid : string :=
  ". This software contains the following license and notice below:"
  +:+ nl +:+ nl.

(** [t.Exceptions] holds [pkg] itself, as an entry without the marker. *)
Definition exactException (t : Config) (pkg : string) : Prop :=
  pkg ∈ Exceptions t /\ strings.HasSuffix pkg "/..." = false.

(** [t.Exceptions] holds an entry with the marker whose normalised form
    is a prefix of [pkg]. *)
Definition prefixException (t : Config) (pkg : string) : Prop :=
  exists v, v ∈ Exceptions t
            /\ strings.HasSuffix v "/..." = true
            /\ strings.HasPrefix pkg (strings.TrimRight v "/...") = true.

(** Two runs on the same inputs: every collaborator answers the same; the
    order of [range] is the runtime's and may differ. *)
Definition same_inputs (w1 w2 : World) : Prop :=
  ReadConfig w1 = ReadConfig w2
  /\ Getwd w1 = Getwd w2
  /\ Lstat w1 = Lstat w2
  /\ Readlink w1 = Readlink w2
  /\ WalkImports w1 = WalkImports w2
  /\ GetLicenses w1 = GetLicenses w2
  /\ Create w1 = Create w2.

(** ** Worlds and inputs of the examples *)

(** A world in which the configuration is [t], the licenses are those of
    [order], enumerated in that order, and [os.Create] answers [out]. *)
Definition worldOf (t : Config) (order : list (string * License))
    (out : result (list (option (nat * string)))) : World :=
  {| ReadConfig := fun _ => Ok t;
     Getwd := Ok "/home/user/project";
     Lstat := fun _ => Ok 0%Z;
     Readlink := fun _ => Err (PathError "readlink" "/home/user/project" "invalid argument");
     WalkImports := fun _ => Ok (map_to_list (list_to_map order : gmap string License)).*1;
     GetLicenses := fun _ _ => list_to_map order;
     Create := fun _ => out;
     rangeOrder := fun _ => order |}.

Definition MIT : License := {| Type_ := "MIT"; Text := "Permission is hereby granted" |}.
Definition GPL : License := {| Type_ := "GPL-3.0"; Text := "GNU GENERAL PUBLIC LICENSE" |}.
Definition undetected : License := {| Type_ := ""; Text := "" |}.

Definition policyOf (wl bl ex : list string) : Config :=
  {| Whitelist := wl; Blacklist := bl; Exceptions := ex |}.

Definition plain : Check :=
  {| File := ".wwhrd.yml"; ReportOut := ""; NoColor := false |}.

Definition reporting : Check :=
  {| File := ".wwhrd.yml"; ReportOut := "NOTICE.txt"; NoColor := false |}.

(** ** [List.Execute] (lines 59-92) *)

(** [type List struct] (lines 20-22). *)
Record ListCmd : Type := { ListNoColor : bool }.

(** Modelled from the spec: [Recognized], a method of [License] declared
    outside [cli.go], holds iff the type tag is not empty. *)
Definition Recognized (l : License) : bool :=
  negb (String.eqb (Type_ l) "").

(** A log record of [List.Execute]; the field [license] is set in one of
    the two branches only. *)
Record ListEntry : Type :=
  { listLevel : Level;
    listPackage : string;
    listLicense : option string;
    listMessage : string }.

(** Lines 79-88, the body of the loop over the licenses. *)
Definition found (kv : string * License) : ListEntry :=
  if Recognized kv.2
  then {| listLevel := InfoLevel; listPackage := kv.1;
          listLicense := Some (Type_ kv.2); listMessage := "Found License" |}
  else {| listLevel := WarnLevel; listPackage := kv.1;
          listLicense := None;
          listMessage := "Did not find recognized license!" |}.

(** Lines 78-89, over the entries in the order [range] yields them. *)
Fixpoint rangeLicenses (log : list ListEntry) (order : list (string * License))
  : list ListEntry :=
  match order with
  | [] => log
  | kv :: later => rangeLicenses (log ++ [found kv]) later
  end.

Record ListOutcome : Type :=
  { listFormatter : TextFormatter;
    listed : list ListEntry;
    listReturned : option error }.

Definition List_Execute (w : World) (l : ListCmd) : ListOutcome :=
  let fm := if ListNoColor l then DisableColors else ForceColors in
  match rootDir w with
  | Err e => {| listFormatter := fm; listed := []; listReturned := Some e |}
  | Ok root =>
      match WalkImports w root with
      | Err e => {| listFormatter := fm; listed := []; listReturned := Some e |}
      | Ok pkgs =>
          let lics := GetLicenses w root pkgs in
          {| listFormatter := fm;
             listed := rangeLicenses [] (rangeOrder w lics);
             listReturned := None |}
      end
  end.

(** ** [setQuiet] (lines 38-41) and the level of the logger *)

(** The values of logrus' [ErrorLevel], [WarnLevel] and [InfoLevel]. *)
Definition levelValue (l : Level) : nat :=
  match l with
  | ErrorLevel => 2
  | WarnLevel => 3
  | InfoLevel => 4
  end.

(** [func (logger *Logger) IsLevelEnabled(level Level) bool]:
    [logger.level() >= level]; a record of a level that is not enabled is
    not written. *)
Definition IsLevelEnabled (logger l : Level) : bool :=
  (levelValue l <=? levelValue logger)%nat.

(** [setQuiet]: the level it sets and the error it returns. *)
Definition setQuiet : Level * option error := (ErrorLevel, None).

(** The records of [Check.Execute] and of [List.Execute] that a logger of
    level [logger] writes. *)
Definition shown (logger : Level) (es : list Entry) : list Entry :=
  List.filter (fun e => IsLevelEnabled logger (level e)) es.

Definition listShown (logger : Level) (es : list ListEntry) : list ListEntry :=
  List.filter (fun e => IsLevelEnabled logger (listLevel e)) es.

(** ** More worlds for the examples *)

(** The world [w], with other answers of [ReadConfig], of the calls of
    [rootDir] and of [WalkImports]. *)
Definition withReadConfig (w : World) (r : result Config) : World :=
  {| ReadConfig := fun _ => r; Getwd := Getwd w; Lstat := Lstat w;
     Readlink := Readlink w; WalkImports := WalkImports w;
     GetLicenses := GetLicenses w; Create := Create w;
     rangeOrder := rangeOrder w |}.

Definition withRoot (w : World) (cwd : result string) (mode : result Z)
    (link : result string) : World :=
  {| ReadConfig := ReadConfig w; Getwd := cwd; Lstat := fun _ => mode;
     Readlink := fun _ => link; WalkImports := WalkImports w;
     GetLicenses := GetLicenses w; Create := Create w;
     rangeOrder := rangeOrder w |}.

Definition withWalkImports (w : World) (r : result (list string)) : World :=
  {| ReadConfig := ReadConfig w; Getwd := Getwd w; Lstat := Lstat w;
     Readlink := Readlink w; WalkImports := fun _ => r;
     GetLicenses := GetLicenses w; Create := Create w;
     rangeOrder := rangeOrder w |}.

(** The collaborators of [w] answered well: the root was found, the
    imports were walked, [lics] are the licenses detected and [range]
    enumerates them, each entry once. *)
Definition Located (w : World) (lics : gmap string License) : Prop :=
  exists root pkgs,
    rootDir w = Ok root
    /\ WalkImports w root = Ok pkgs
    /\ GetLicenses w root pkgs = lics
    /\ rangeOrder w lics ≡ₚ map_to_list lics.

(** The two lists have the same members. *)
Definition same_members (l1 l2 : list string) : Prop :=
  forall x, x ∈ l1 <-> x ∈ l2.

(** * Facts about the string functions *)

Section StringFacts.

Lemma append_nil (s : string) : "" +:+ s = s.
Proof. reflexivity. Qed.

Lemma append_cons (c : ascii) (s1 s2 : string) :
  String c s1 +:+ s2 = String c (s1 +:+ s2).
Proof. reflexivity. Qed.

Lemma append_length (s1 s2 : string) :
  String.length (s1 +:+ s2) = String.length s1 + String.length s2.
Proof.
  induction s1 as [|c s1 IH]; [done |].
  rewrite append_cons. simpl. by rewrite IH.
Qed.

Lemma append_empty_r (s : string) : s +:+ "" = s.
Proof.
  induction s as [|c s IH]; [done |]. by rewrite append_cons, IH.
Qed.

Lemma append_assoc (s1 s2 s3 : string) :
  (s1 +:+ s2) +:+ s3 = s1 +:+ (s2 +:+ s3).
Proof.
  induction s1 as [|c s1 IH]; [done |]. by rewrite !append_cons, IH.
Qed.

Lemma substring_whole (s : string) :
  String.substring 0 (String.length s) s = s.
Proof. induction s as [|c s IH]; simpl; [done | by rewrite IH]. Qed.

Lemma substring_head (p r : string) :
  String.substring 0 (String.length p) (p +:+ r) = p.
Proof.
  induction p as [|c p IH].
  - rewrite append_nil. by destruct r.
  - rewrite append_cons. simpl. by rewrite IH.
Qed.

Lemma substring_tail (p s : string) (m : nat) :
  String.substring (String.length p) m (p +:+ s) = String.substring 0 m s.
Proof.
  induction p as [|c p IH]; [done |]. rewrite append_cons. simpl. apply IH.
Qed.

Lemma substring_split (s : string) (n : nat) :
  n <= String.length s ->
  s = String.substring 0 n s +:+ String.substring n (String.length s - n) s.
Proof.
  revert n. induction s as [|c s IH]; intros n Hn; simpl in *.
  - by destruct n.
  - destruct n as [|n]; simpl.
    + by rewrite append_nil, substring_whole.
    + rewrite append_cons. f_equal. apply IH. lia.
Qed.

(** [HasPrefix] is the prefix relation. *)
Lemma HasPrefix_iff (s prefix : string) :
  strings.HasPrefix s prefix = true <-> exists r, s = prefix +:+ r.
Proof.
  unfold strings.HasPrefix, strings.slice. rewrite Nat.sub_0_r. split.
  - intros [Hlen Heq]%andb_true_iff.
    apply Nat.leb_le in Hlen. apply String.eqb_eq in Heq.
    exists (String.substring (String.length prefix)
              (String.length s - String.length prefix) s).
    rewrite <- Heq at 1. by apply substring_split.
  - intros [r ->]. apply andb_true_iff. split.
    + apply Nat.leb_le. rewrite append_length. lia.
    + apply String.eqb_eq, substring_head.
Qed.

Lemma HasPrefix_empty (s : string) : strings.HasPrefix s "" = true.
Proof. apply HasPrefix_iff. by exists s. Qed.

(** [HasSuffix] is the suffix relation. *)
Lemma HasSuffix_iff (s suffix : string) :
  strings.HasSuffix s suffix = true <-> exists p, s = p +:+ suffix.
Proof.
  unfold strings.HasSuffix, strings.slice. split.
  - intros [Hlen Heq]%andb_true_iff.
    apply Nat.leb_le in Hlen. apply String.eqb_eq in Heq.
    exists (String.substring 0 (String.length s - String.length suffix) s).
    rewrite <- Heq at 2.
    apply substring_split. lia.
  - intros [p ->]. apply andb_true_iff. rewrite append_length. split.
    + apply Nat.leb_le. lia.
    + apply String.eqb_eq.
      replace (String.length p + String.length suffix - String.length suffix)
        with (String.length p) by lia.
      replace (String.length p + String.length suffix - String.length p)
        with (String.length suffix) by lia.
      rewrite substring_tail. apply substring_whole.
Qed.

Lemma TrimRight_all_in (cutset q : string) :
  all_in cutset q = true -> strings.TrimRight q cutset = "".
Proof.
  induction q as [|c q IH]; simpl; [done |].
  intros [Hc Hq]%andb_true_iff. by rewrite IH, Hc.
Qed.

Lemma TrimRight_empty_inv (cutset s : string) :
  strings.TrimRight s cutset = "" -> all_in cutset s = true.
Proof.
  induction s as [|c s IH]; simpl; [done |].
  destruct (strings.TrimRight s cutset) eqn:E; [|done].
  destruct (strings.contains cutset c); [|done].
  intros _. by rewrite IH.
Qed.

(** Trimming forgets a tail made of cutset bytes, however long. *)
Lemma TrimRight_append (cutset p q : string) :
  all_in cutset q = true ->
  strings.TrimRight (p +:+ q) cutset = strings.TrimRight p cutset.
Proof.
  intros Hq. induction p as [|c p IH].
  - rewrite append_nil. by apply TrimRight_all_in.
  - rewrite append_cons. simpl. by rewrite IH.
Qed.

(** Trimming leaves alone a string that does not end in a cutset byte. *)
Lemma TrimRight_clean (cutset s : string) :
  ends_clean cutset s = true -> strings.TrimRight s cutset = s.
Proof.
  induction s as [|c s IH]; [done |].
  destruct s as [|d s].
  - simpl. intros Hc. by destruct (strings.contains cutset c).
  - intros Hs. change (ends_clean cutset (String d s) = true) in Hs.
    change (strings.TrimRight (String c (String d s)) cutset)
      with (match strings.TrimRight (String d s) cutset with
            | EmptyString =>
                if strings.contains cutset c then EmptyString
                else String c EmptyString
            | r => String c r
            end).
    by rewrite (IH Hs).
Qed.

(** The result of trimming: a prefix of the input that does not end in
    a cutset byte, and what was cut is made of cutset bytes. *)
Lemma TrimRight_spec (cutset s : string) :
  exists q, s = strings.TrimRight s cutset +:+ q
            /\ all_in cutset q = true
            /\ ends_clean cutset (strings.TrimRight s cutset) = true.
Proof.
  induction s as [|c s (q & Hs & Hq & Hclean)]; simpl.
  - by exists "".
  - destruct (strings.TrimRight s cutset) as [|d r] eqn:E.
    + rewrite append_nil in Hs. subst q.
      destruct (strings.contains cutset c) eqn:Hc.
      * exists (String c s). simpl. by rewrite Hc, Hq.
      * exists s. simpl. by rewrite Hc.
    + exists q. split; [by rewrite append_cons, <- Hs | done].
Qed.

End StringFacts.

(** * The scenarios of the specification, run on the model *)

Section Scenarios.

Example scenario_approved :
  let r := Execute (worldOf (policyOf ["MIT"] [] []) [("pkgA", MIT)] (Ok [])) plain in
  verdictOf <$> logged_entries r = [Approved] /\ returned r = None.
Proof. split; vm_compute; reflexivity. Qed.

Example scenario_deny_wins :
  let r := Execute (worldOf (policyOf ["MIT"] ["MIT"] []) [("pkgA", MIT)] (Ok [])) plain in
  verdictOf <$> logged_entries r = [NonApproved]
  /\ returned r = Some NonApprovedError.
Proof. split; vm_compute; reflexivity. Qed.

Example scenario_exact_exception :
  let r := Execute (worldOf (policyOf [] [] ["github.com/foo/bar"])
                      [("github.com/foo/bar", GPL)] (Ok [])) plain in
  verdictOf <$> logged_entries r = [Exceptioned] /\ returned r = None.
Proof. split; vm_compute; reflexivity. Qed.

Example scenario_wildcard_exception :
  let r := Execute (worldOf (policyOf [] [] ["github.com/foo/..."])
                      [("github.com/foo/baz", GPL)] (Ok [])) plain in
  verdictOf <$> logged_entries r = [Exceptioned] /\ returned r = None.
Proof. split; vm_compute; reflexivity. Qed.

Example scenario_undetected :
  let r := Execute (worldOf (policyOf [] [] []) [("pkgX", undetected)] (Ok [])) plain in
  verdictOf <$> logged_entries r = [NonApproved]
  /\ returned r = Some NonApprovedError.
Proof. split; vm_compute; reflexivity. Qed.

Example scenario_report :
  let r := Execute (worldOf (policyOf ["MIT"] [] []) [("pkgA", MIT)] (Ok [])) reporting in
  (contents <$> reportFile r)
  = Some (licenseReportHeader +:+ entryHead +:+ "pkgA" +:+ entryMid
          +:+ "Permission is hereby granted" +:+ nl)
  /\ (closed <$> reportFile r) = Some true.
Proof. split; vm_compute; reflexivity. Qed.

End Scenarios.

(** * The policy maps *)

Section PolicyFacts.

Lemma makeMap_from (l : list string) (m : gmap string bool) (k : string) :
  foldl (fun m v => <[v := true]> m) m l !! k
  = if decide (k ∈ l) then Some true else m !! k.
Proof.
  revert m. induction l as [|v l IH]; intros m; simpl.
  - destruct (decide (k ∈ [])) as [H|H]; [by apply elem_of_nil in H | done].
  - rewrite IH. destruct (decide (k = v)) as [->|Hne].
    + rewrite lookup_insert_eq.
      destruct (decide (v ∈ l)), (decide (v ∈ v :: l)); try done;
        exfalso; set_solver.
    + rewrite lookup_insert_ne by done.
      destruct (decide (k ∈ l)), (decide (k ∈ v :: l)); try done;
        exfalso; set_solver.
Qed.

(** [m[k]] is [true] exactly for the members of the list the map was made of. *)
Lemma index_makeMap (l : list string) (k : string) :
  index (makeMap l) k = true <-> k ∈ l.
Proof.
  unfold index, makeMap. rewrite makeMap_from, lookup_empty.
  destruct (decide (k ∈ l)); simpl; split; done.
Qed.

Lemma addException_exact (acc : gmap string bool * gmap string bool) (v k : string) :
  is_Some ((addException acc v).1 !! k)
  <-> (k = v /\ strings.HasSuffix v "/..." = false) \/ is_Some (acc.1 !! k).
Proof.
  unfold addException. destruct (strings.HasSuffix v "/...") eqn:E; simpl.
  - naive_solver.
  - rewrite lookup_insert_is_Some. destruct (decide (v = k)); naive_solver.
Qed.

Lemma addException_wildcard (acc : gmap string bool * gmap string bool) (v k : string) :
  is_Some ((addException acc v).2 !! k)
  <-> (strings.HasSuffix v "/..." = true /\ k = strings.TrimRight v "/...")
      \/ is_Some (acc.2 !! k).
Proof.
  unfold addException. destruct (strings.HasSuffix v "/...") eqn:E; simpl.
  - rewrite lookup_insert_is_Some.
    destruct (decide (strings.TrimRight v "/..." = k)); naive_solver.
  - naive_solver.
Qed.

Lemma makeExceptions_from (l : list string)
    (acc : gmap string bool * gmap string bool) (k : string) :
  (is_Some ((foldl addException acc l).1 !! k)
   <-> (k ∈ l /\ strings.HasSuffix k "/..." = false) \/ is_Some (acc.1 !! k))
  /\ (is_Some ((foldl addException acc l).2 !! k)
      <-> (exists v, v ∈ l /\ strings.HasSuffix v "/..." = true
                     /\ k = strings.TrimRight v "/...")
          \/ is_Some (acc.2 !! k)).
Proof.
  revert acc. induction l as [|v l IH]; intros acc; simpl.
  - split; split; try tauto.
    + intros [[H _]|H]; [by apply elem_of_nil in H | done].
    + intros [(v & H & _)|H]; [by apply elem_of_nil in H | done].
  - destruct (IH (addException acc v)) as [IH1 IH2].
    rewrite IH1, IH2, addException_exact, addException_wildcard.
    split; split.
    + intros [[Hk Hs]|[[-> Hs]|H]]; [left | left | by right].
      * split; [by apply elem_of_cons; right | done].
      * split; [by apply elem_of_cons; left | done].
    + intros [[[->|Hk]%elem_of_cons Hs]|H]; [by right; left | by left | by right; right].
    + intros [(u & Hu & Hs & ->)|[[Hs ->]|H]]; [left | left | by right].
      * exists u. split; [by apply elem_of_cons; right | done].
      * exists v. split; [by apply elem_of_cons; left | done].
    + intros [(u & [->|Hu]%elem_of_cons & Hs & ->)|H].
      * by right; left.
      * left. by exists u.
      * by right; right.
Qed.

(** The exact-exception map holds the entries without the marker. *)
Lemma makeExceptions_exact (l : list string) (k : string) :
  exists_ (makeExceptions l).1 k = true
  <-> k ∈ l /\ strings.HasSuffix k "/..." = false.
Proof.
  unfold exists_, makeExceptions. rewrite bool_decide_eq_true.
  destruct (makeExceptions_from l (∅, ∅) k) as [-> _]. simpl.
  rewrite lookup_empty. split; [intros [H|[? H]]; [done | done] | by left].
Qed.

(** The wildcard map holds the trimmed entries with the marker. *)
Lemma makeExceptions_wildcard (l : list string) (k : string) :
  is_Some ((makeExceptions l).2 !! k)
  <-> exists v, v ∈ l /\ strings.HasSuffix v "/..." = true
                /\ k = strings.TrimRight v "/...".
Proof.
  unfold makeExceptions.
  destruct (makeExceptions_from l (∅, ∅) k) as [_ ->]. simpl.
  rewrite lookup_empty. split; [intros [H|[? H]]; [done | done] | by left].
Qed.

Lemma rangeWildcard_true (pkg : string) (wcs : list string) :
  rangeWildcard pkg wcs = true
  <-> exists wc, wc ∈ wcs /\ strings.HasPrefix pkg wc = true.
Proof.
  induction wcs as [|wc wcs IH]; simpl.
  - split; [done | intros (wc & H & _); by apply elem_of_nil in H].
  - destruct (strings.HasPrefix pkg wc) eqn:E.
    + split; [intros _ | done]. exists wc. split; [by left | done].
    + rewrite IH. split.
      * intros (u & Hu & Hp). exists u. split; [by right | done].
      * intros (u & [->|Hu]%elem_of_cons & Hp); [congruence | by exists u].
Qed.

(** The order in which [range] yields the prefixes does not matter. *)
Lemma rangeWildcard_order (pkg : string) (wcs wcs' : list string) :
  wcs ≡ₚ wcs' -> rangeWildcard pkg wcs = rangeWildcard pkg wcs'.
Proof.
  intros Hp. apply eq_true_iff_eq. rewrite !rangeWildcard_true.
  split; intros (wc & Hwc & H); exists wc; split; try done.
  - by rewrite <- Hp.
  - by rewrite Hp.
Qed.

Lemma wildcard_branch (m : gmap string bool) (pkg : string) :
  bool_decide (0 < size m) && rangeWildcard pkg (map_to_list m).*1 = true
  <-> exists wc, is_Some (m !! wc) /\ strings.HasPrefix pkg wc = true.
Proof.
  rewrite andb_true_iff, bool_decide_eq_true, rangeWildcard_true. split.
  - intros [_ (wc & Hwc & Hp)]. exists wc. split; [|done].
    apply list_elem_of_fmap in Hwc as ([k b] & -> & Hkb).
    apply elem_of_map_to_list in Hkb. by exists b.
  - intros (wc & [b Hb] & Hp). split.
    + destruct (decide (size m = 0)) as [Hz|Hz]; [|lia].
      apply map_size_empty_iff in Hz. subst m. by rewrite lookup_empty in Hb.
    + exists wc. split; [|done]. apply list_elem_of_fmap.
      exists (wc, b). split; [done |]. by apply elem_of_map_to_list.
Qed.

End PolicyFacts.

(** * The verdict of one dependency *)

Section EvaluateFacts.

Variable t : Config.

Lemma approved_branch (lic : License) :
  index (whitelist (makePolicy t)) (Type_ lic)
  && negb (index (blacklist (makePolicy t)) (Type_ lic)) = true
  <-> Type_ lic ∈ Whitelist t /\ Type_ lic ∉ Blacklist t.
Proof.
  simpl. rewrite andb_true_iff, negb_true_iff, index_makeMap.
  rewrite <- not_true_iff_false, index_makeMap. done.
Qed.

Lemma prefix_branch (pkg : string) :
  bool_decide (0 < size (exceptionsWildcard (makePolicy t)))
  && rangeWildcard pkg (map_to_list (exceptionsWildcard (makePolicy t))).*1 = true
  <-> prefixException t pkg.
Proof.
  rewrite wildcard_branch. simpl. unfold prefixException. split.
  - intros (wc & (v & Hv & Hs & ->)%makeExceptions_wildcard & Hp). by exists v.
  - intros (v & Hv & Hs & Hp). exists (strings.TrimRight v "/..."). split; [|done].
    apply makeExceptions_wildcard. by exists v.
Qed.

Lemma exact_branch (pkg : string) :
  exists_ (exceptions (makePolicy t)) pkg = true <-> exactException t pkg.
Proof. simpl. apply makeExceptions_exact. Qed.

(** The chain of tests, branch by branch. *)
Lemma evaluate_cases (pkg : string) (lic : License) :
  ((Type_ lic ∈ Whitelist t /\ Type_ lic ∉ Blacklist t)
   /\ evaluate (makePolicy t) pkg lic = Approved)
  \/ (~ (Type_ lic ∈ Whitelist t /\ Type_ lic ∉ Blacklist t)
      /\ (prefixException t pkg \/ exactException t pkg)
      /\ evaluate (makePolicy t) pkg lic = Exceptioned)
  \/ (~ (Type_ lic ∈ Whitelist t /\ Type_ lic ∉ Blacklist t)
      /\ ~ prefixException t pkg
      /\ ~ exactException t pkg
      /\ evaluate (makePolicy t) pkg lic = NonApproved).
Proof.
  unfold evaluate.
  destruct (index (whitelist (makePolicy t)) (Type_ lic)
            && negb (index (blacklist (makePolicy t)) (Type_ lic))) eqn:Ea.
  { left. split; [by apply approved_branch | done]. }
  assert (~ (Type_ lic ∈ Whitelist t /\ Type_ lic ∉ Blacklist t)) as Hna.
  { rewrite <- approved_branch. by rewrite Ea. }
  right.
  destruct (bool_decide (0 < size (exceptionsWildcard (makePolicy t)))
            && rangeWildcard pkg
                 (map_to_list (exceptionsWildcard (makePolicy t))).*1) eqn:Ew.
  { left. split; [done |]. split; [|done]. left. by apply prefix_branch. }
  assert (~ prefixException t pkg) as Hnp.
  { rewrite <- prefix_branch. by rewrite Ew. }
  destruct (exists_ (exceptions (makePolicy t)) pkg) eqn:Ee.
  { left. split; [done |]. split; [|done]. right. by apply exact_branch. }
  right. repeat split; try done.
  rewrite <- exact_branch. by rewrite Ee.
Qed.

Lemma evaluate_Approved (pkg : string) (lic : License) :
  evaluate (makePolicy t) pkg lic = Approved
  <-> Type_ lic ∈ Whitelist t /\ Type_ lic ∉ Blacklist t.
Proof.
  destruct (evaluate_cases pkg lic) as [[H ->]|[(H & _ & ->)|(H & _ & _ & ->)]];
    split; done.
Qed.

Lemma evaluate_Exceptioned (pkg : string) (lic : License) :
  evaluate (makePolicy t) pkg lic = Exceptioned
  <-> ~ (Type_ lic ∈ Whitelist t /\ Type_ lic ∉ Blacklist t)
      /\ (prefixException t pkg \/ exactException t pkg).
Proof.
  destruct (evaluate_cases pkg lic)
    as [[H ->]|[(H & He & ->)|(H & Hp & He & ->)]]; split; try done.
  - intros [Hn _]. done.
  - intros [_ [?|?]]; done.
Qed.

Lemma evaluate_NonApproved (pkg : string) (lic : License) :
  evaluate (makePolicy t) pkg lic = NonApproved
  <-> ~ (Type_ lic ∈ Whitelist t /\ Type_ lic ∉ Blacklist t)
      /\ ~ prefixException t pkg
      /\ ~ exactException t pkg.
Proof.
  destruct (evaluate_cases pkg lic)
    as [[H ->]|[(H & He & ->)|(H & Hp & He & ->)]]; split; try done.
  - intros [Hn _]. done.
  - intros (_ & ? & ?). destruct He; done.
Qed.

End EvaluateFacts.

(** * The loop over the dependencies *)

Section LoopFacts.

Variable p : Policy.

Lemma judge_err (s : Frame) (pkg : string) (lic : License) :
  err (judge p s pkg lic)
  = if violates p (pkg, lic) then Some NonApprovedError else err s.
Proof. unfold judge, violates. simpl. by destruct (evaluate p pkg lic). Qed.

Lemma judge_eq (s : Frame) (kv : string * License) :
  judge p s kv.1 kv.2
  = {| err := if violates p kv then Some NonApprovedError else err s;
       report := report s;
       logs := logs s ++ verdicts p [kv] |}.
Proof.
  destruct kv as [pkg lic]. unfold judge, violates. simpl.
  by destruct (evaluate p pkg lic).
Qed.

Lemma WriteString_ok (f : OsFile) (s : string) :
  healthy 1 (faults f) = true -> WriteString f s = (written f s, None).
Proof.
  unfold healthy, WriteString, written.
  destruct (faults f) as [|[e|] later]; simpl; done.
Qed.

Lemma WriteString_fault (f : OsFile) (s e : string) (n : nat)
    (later : list (option (nat * string))) :
  faults f = Some (n, e) :: later ->
  WriteString f s
  = ({| name := name f; contents := contents f +:+ String.substring 0 n s;
        faults := later; closed := closed f |},
     Some (PathError "write" (name f) e)).
Proof. unfold WriteString. by intros ->. Qed.

Lemma healthy_S (n : nat) (fs : list (option (nat * string))) :
  healthy (S n) fs = true -> healthy 1 fs = true /\ healthy n (tail fs) = true.
Proof.
  unfold healthy. destruct fs as [|x fs]; simpl.
  - by destruct n.
  - intros [-> ->]%andb_true_iff. done.
Qed.


Lemma healthy_replicate (n : nat) (fs : list (option (nat * string))) :
  healthy n (replicate n None ++ fs) = true.
Proof. unfold healthy. induction n as [|n IH]; simpl; done. Qed.

Lemma PackageList_cons (s : Frame) (kv : string * License)
    (later : list (string * License)) :
  PackageList p s (kv :: later)
  = match iteration p s kv with
    | Next s' => PackageList p s' later
    | Return s' => s'
    end.
Proof. reflexivity. Qed.

Lemma verdicts_cons (kv : string * License) (later : list (string * License)) :
  verdicts p (kv :: later) = (verdicts p [kv] ++ verdicts p later)%list.
Proof. reflexivity. Qed.

Lemma render_cons (kv : string * License) (later : list (string * License)) :
  render (kv :: later) = reportEntry kv.1 kv.2 +:+ render later.
Proof. reflexivity. Qed.

Lemma Frame_eta (s : Frame) :
  s = {| err := err s; report := report s; logs := logs s |}.
Proof. by destruct s. Qed.

(** Without a report the loop never returns early: it logs one record per
    entry and [err], once set, stays set. *)
Lemma PackageList_plain (order : list (string * License)) (s : Frame) :
  report s = None ->
  PackageList p s order
  = {| err := if existsb (violates p) order then Some NonApprovedError else err s;
       report := None;
       logs := logs s ++ verdicts p order |}.
Proof.
  revert s. induction order as [|kv order IH]; intros s Hs.
  - simpl. rewrite app_nil_r, <- Hs. apply Frame_eta.
  - rewrite PackageList_cons. unfold iteration. rewrite Hs.
    rewrite IH by (by rewrite judge_eq).
    rewrite judge_eq, (verdicts_cons kv order), app_assoc.
    cbn [err logs existsb].
    by destruct (violates p kv), (existsb (violates p) order).
Qed.

(** With a report whose writes succeed the loop does not return early
    either, but each write resets [err]: the error left is the one of the
    last entry. *)
Lemma PackageList_report (order : list (string * License)) (s : Frame) (f : OsFile) :
  report s = Some f ->
  healthy (length order) (faults f) = true ->
  exists f',
    PackageList p s order
    = {| err := match last order with
                | Some kv => if violates p kv then Some NonApprovedError else None
                | None => err s
                end;
         report := Some f';
         logs := logs s ++ verdicts p order |}
    /\ name f' = name f
    /\ contents f' = contents f +:+ render order
    /\ closed f' = closed f.
Proof.
  revert s f. induction order as [|kv order IH]; intros s f Hs Hf.
  - exists f. simpl. rewrite app_nil_r, append_empty_r, <- Hs.
    split; [apply Frame_eta | done].
  - apply healthy_S in Hf as [H1 Hf].
    rewrite PackageList_cons. unfold iteration.
    rewrite Hs, (WriteString_ok _ _ H1), judge_eq.
    cbn [err report logs].
    edestruct (IH {| err := if violates p kv then Some NonApprovedError else None;
                     report := Some (written f (reportEntry kv.1 kv.2));
                     logs := logs s ++ verdicts p [kv] |})
      as (f' & -> & Hn & Hc & Hcl); [done | done |].
    exists f'. cbn [err report logs].
    rewrite (verdicts_cons kv order), render_cons, app_assoc.
    split; [|split; [done | split; [|done]]].
    2: { rewrite Hc. unfold written. cbn [contents]. apply append_assoc. }
    f_equal. destruct order as [|kv' order]; [done |].
    change (last (kv :: kv' :: order)) with (last (kv' :: order)).
    destruct (last (kv' :: order)) eqn:E; [done | by apply last_None in E].
Qed.

(** A write that fails ends the loop at once: the entries before it were
    written and judged, the entry of the failed write is not judged and
    only the bytes that went through are in the report, the others are
    neither judged nor written, and [err] is the fault. *)
Lemma PackageList_fault (pre : list (string * License)) (kv : string * License)
    (post : list (string * License)) (s : Frame) (f : OsFile)
    (n : nat) (e : string) (later : list (option (nat * string))) :
  report s = Some f ->
  faults f = replicate (length pre) None ++ Some (n, e) :: later ->
  exists f',
    PackageList p s (pre ++ kv :: post)
    = {| err := Some (PathError "write" (name f) e);
         report := Some f';
         logs := logs s ++ verdicts p pre |}
    /\ name f' = name f
    /\ contents f'
       = contents f +:+ render pre +:+ String.substring 0 n (reportEntry kv.1 kv.2)
    /\ closed f' = closed f.
Proof.
  revert s f. induction pre as [|kv' pre IH]; intros s f Hs Hf.
  - simpl in Hf. rewrite app_nil_l, PackageList_cons. unfold iteration.
    rewrite Hs, (WriteString_fault _ _ _ _ _ Hf).
    eexists. split; [by rewrite app_nil_r |]. simpl. done.
  - simpl in Hf. rewrite <- app_comm_cons, PackageList_cons. unfold iteration.
    rewrite Hs, WriteString_ok by (by rewrite Hf).
    rewrite judge_eq. cbn [err report logs].
    edestruct (IH {| err := if violates p kv' then Some NonApprovedError else None;
                     report := Some (written f (reportEntry kv'.1 kv'.2));
                     logs := logs s ++ verdicts p [kv'] |})
      as (f' & -> & Hn & Hc & Hcl); [done | by simpl; rewrite Hf |].
    exists f'. cbn [err report logs].
    rewrite (verdicts_cons kv' pre), render_cons, app_assoc.
    split; [done |]. split; [done |]. split; [|done].
    rewrite Hc. unfold written. cbn [contents]. by rewrite !append_assoc.
Qed.

End LoopFacts.

(** * The run as a whole *)

Section ExecuteFacts.

(** Past the collaborators, [Execute] is the audit of lines 129-211. *)
Lemma Execute_Setting (w : World) (c : Check) (t : Config)
    (lics : gmap string License) :
  Setting w c t lics ->
  Execute w c = audit (SetFormatter c) t (rangeOrder w lics) (openReport w c).
Proof.
  intros (Ht & root & pkgs & Hroot & Hpkgs & Hlics & _).
  unfold Execute. by rewrite Ht, Hroot, Hpkgs, Hlics.
Qed.

Lemma Setting_order (w : World) (c : Check) (t : Config)
    (lics : gmap string License) :
  Setting w c t lics -> rangeOrder w lics ≡ₚ map_to_list lics.
Proof. by intros (_ & root & pkgs & _ & _ & _ & H). Qed.

Lemma Setting_length (w : World) (c : Check) (t : Config)
    (lics : gmap string License) :
  Setting w c t lics -> length (rangeOrder w lics) = size lics.
Proof.
  intros H%Setting_order. rewrite H. apply length_map_to_list.
Qed.

Lemma worldOf_Setting (t : Config) (order : list (string * License))
    (out : result (list (option (nat * string)))) (c : Check) :
  NoDup order.*1 -> Setting (worldOf t order out) c t (list_to_map order).
Proof.
  intros Hnd. split; [done |].
  eexists _, _. repeat split. simpl.
  symmetry. by apply map_to_list_to_map.
Qed.

Lemma openReport_none (w : World) (c : Check) :
  ReportOut c = "" -> openReport w c = None.
Proof. unfold openReport. by intros ->. Qed.

Lemma openReport_created (w : World) (c : Check) (fs : list (option (nat * string))) :
  ReportOut c <> "" ->
  Create w (ReportOut c) = Ok fs ->
  openReport w c
  = Some (Ok {| name := ReportOut c; contents := ""; faults := fs; closed := false |}).
Proof.
  unfold openReport. intros Hne ->.
  destruct (String.eqb_spec (ReportOut c) ""); done.
Qed.

(** The audit without report. *)
Lemma audit_plain (fm : TextFormatter) (t : Config) (order : list (string * License)) :
  audit fm t order None
  = {| formatter := fm;
       logged_entries := verdicts (makePolicy t) order;
       reportFile := None;
       returned := if existsb (violates (makePolicy t)) order
                   then Some NonApprovedError else None |}.
Proof. unfold audit. by rewrite PackageList_plain. Qed.

(** The audit with a report none of whose writes fails. *)
Lemma audit_report (fm : TextFormatter) (t : Config) (order : list (string * License))
    (n : string) (fs : list (option (nat * string))) :
  healthy (S (length order)) fs = true ->
  exists f,
    audit fm t order
      (Some (Ok {| name := n; contents := ""; faults := fs; closed := false |}))
    = {| formatter := fm;
         logged_entries := verdicts (makePolicy t) order;
         reportFile := Some f;
         returned := match last order with
                     | Some kv => if violates (makePolicy t) kv
                                  then Some NonApprovedError else None
                     | None => None
                     end |}
    /\ name f = n
    /\ contents f = licenseReportHeader +:+ render order
    /\ closed f = true.
Proof.
  intros [H1 Hf]%healthy_S. unfold audit.
  rewrite WriteString_ok by done.
  edestruct (PackageList_report (makePolicy t) order
               {| err := None;
                  report := Some (written {| name := n; contents := ""; faults := fs;
                                             closed := false |} licenseReportHeader);
                  logs := [] |}) as (f & -> & Hn & Hc & Hcl); [done | done |].
  exists (Close f). split; [done |]. split; [done |]. split; [|done].
  cbn [Close contents]. rewrite Hc. reflexivity.
Qed.

(** The audit when the header cannot be written. *)
Lemma audit_fault_header (fm : TextFormatter) (t : Config)
    (order : list (string * License)) (n e : string) (b : nat)
    (later : list (option (nat * string))) :
  audit fm t order
    (Some (Ok {| name := n; contents := ""; faults := Some (b, e) :: later;
                 closed := false |}))
  = {| formatter := fm;
       logged_entries := [];
       reportFile := Some {| name := n;
                             contents := String.substring 0 b licenseReportHeader;
                             faults := later; closed := true |};
       returned := Some (PathError "write" n e) |}.
Proof. reflexivity. Qed.

(** The audit when the block of [kv] cannot be written. *)
Lemma audit_fault_entry (fm : TextFormatter) (t : Config)
    (pre : list (string * License)) (kv : string * License)
    (post : list (string * License)) (n e : string) (b : nat)
    (later : list (option (nat * string))) :
  exists f,
    audit fm t (pre ++ kv :: post)
      (Some (Ok {| name := n; contents := "";
                   faults := None :: replicate (length pre) None ++ Some (b, e) :: later;
                   closed := false |}))
    = {| formatter := fm;
         logged_entries := verdicts (makePolicy t) pre;
         reportFile := Some f;
         returned := Some (PathError "write" n e) |}
    /\ name f = n
    /\ contents f
       = licenseReportHeader +:+ render pre
         +:+ String.substring 0 b (reportEntry kv.1 kv.2)
    /\ closed f = true.
Proof.
  unfold audit. rewrite WriteString_ok by done.
  edestruct (PackageList_fault (makePolicy t) pre kv post
               {| err := None;
                  report := Some (written {| name := n; contents := "";
                                             faults := None :: replicate (length pre) None
                                                       ++ Some (b, e) :: later;
                                             closed := false |} licenseReportHeader);
                  logs := [] |}) as (f & -> & Hn & Hc & Hcl); [done | done |].
  exists (Close f). split; [done |]. split; [done |]. split; [|done].
  cbn [Close contents]. rewrite Hc. reflexivity.
Qed.

Lemma violates_exists (p : Policy) (order : list (string * License)) :
  existsb (violates p) order = true
  <-> exists kv, kv ∈ order /\ evaluate p kv.1 kv.2 = NonApproved.
Proof.
  rewrite existsb_exists. unfold violates.
  split; intros (kv & Hin & H); exists kv.
  - split; [by apply list_elem_of_In |]. by destruct (evaluate p kv.1 kv.2).
  - split; [by apply list_elem_of_In |]. by rewrite H.
Qed.

(** What holds of the aggregate result: without a report, [Execute] fails
    exactly when some dependency is not approved. *)
Lemma Execute_plain_fails_iff (w : World) (c : Check) (t : Config)
    (lics : gmap string License) :
  Setting w c t lics ->
  ReportOut c = "" ->
  (returned (Execute w c) = Some NonApprovedError
   <-> exists pkg lic, lics !! pkg = Some lic
                       /\ evaluate (makePolicy t) pkg lic = NonApproved)
  /\ (returned (Execute w c) = None
      <-> forall pkg lic, lics !! pkg = Some lic
                          -> evaluate (makePolicy t) pkg lic <> NonApproved).
Proof.
  intros Hset Hno.
  rewrite (Execute_Setting _ _ _ _ Hset), (openReport_none _ _ Hno), audit_plain.
  cbn [returned]. pose proof (Setting_order _ _ _ _ Hset) as Hperm.
  assert (existsb (violates (makePolicy t)) (rangeOrder w lics) = true
          <-> exists pkg lic, lics !! pkg = Some lic
                              /\ evaluate (makePolicy t) pkg lic = NonApproved) as Hiff.
  { rewrite violates_exists. split.
    - intros ([pkg lic] & Hin & Hv). exists pkg, lic. split; [|done].
      rewrite Hperm in Hin. by apply elem_of_map_to_list in Hin.
    - intros (pkg & lic & Hl & Hv). exists (pkg, lic). split; [|done].
      rewrite Hperm. by apply elem_of_map_to_list. }
  destruct (existsb (violates (makePolicy t)) (rangeOrder w lics)); split.
  - split; [intros _; by apply Hiff | done].
  - split; [done |]. intros Hall. destruct Hiff as [(pkg & lic & Hl & Hv) _]; [done |].
    by destruct (Hall pkg lic Hl).
  - split; [done |]. intros H. by apply Hiff in H.
  - split; [|done]. intros _ pkg lic Hl Hv.
    assert (false = true) by (apply Hiff; by exists pkg, lic). done.
Qed.

(** With a report whose writes succeed, the last dependency visited alone
    decides the result. *)
Lemma Execute_report_fails_iff (w : World) (c : Check) (t : Config)
    (lics : gmap string License) (fs : list (option (nat * string))) :
  Setting w c t lics ->
  ReportOut c <> "" ->
  Create w (ReportOut c) = Ok fs ->
  healthy (S (size lics)) fs = true ->
  returned (Execute w c) = Some NonApprovedError
  <-> exists kv, last (rangeOrder w lics) = Some kv
                 /\ evaluate (makePolicy t) kv.1 kv.2 = NonApproved.
Proof.
  intros Hset Hne Hcr Hfs.
  rewrite (Execute_Setting _ _ _ _ Hset), (openReport_created _ _ _ Hne Hcr).
  rewrite <- (Setting_length _ _ _ _ Hset) in Hfs.
  destruct (audit_report (SetFormatter c) t (rangeOrder w lics) (ReportOut c) fs Hfs)
    as (f & -> & _). cbn [returned].
  destruct (last (rangeOrder w lics)) as [kv|].
  - unfold violates. split.
    + intros H. exists kv. split; [done |].
      by destruct (evaluate (makePolicy t) kv.1 kv.2).
    + intros (kv' & [= <-] & ->). done.
  - split; [done | by intros (kv & ? & _)].
Qed.

End ExecuteFacts.

(** * The claims of the specification *)

(** ** Aggregate result *)

(** C1 -- the aggregate result should report failure exactly when some
    dependency is non-approved, with or without a report.  [Execute] does
    so without a report ([Execute_plain_fails_iff]); with a report, the
    write of line 171 assigns [err] again and wipes the failure of the
    dependencies visited before: here [pkgA] is non-approved, the run
    without report fails, and the same run with a report returns [nil]. *)
Theorem Execute_report_masks_violation :
  Setting (worldOf (policyOf ["MIT"] [] []) [("pkgA", GPL); ("pkgB", MIT)] (Ok []))
    reporting (policyOf ["MIT"] [] []) (list_to_map [("pkgA", GPL); ("pkgB", MIT)])
  /\ evaluate (makePolicy (policyOf ["MIT"] [] [])) "pkgA" GPL = NonApproved
  /\ returned (Execute (worldOf (policyOf ["MIT"] [] [])
                          [("pkgA", GPL); ("pkgB", MIT)] (Ok [])) plain)
     = Some NonApprovedError
  /\ verdictOf <$> logged_entries
       (Execute (worldOf (policyOf ["MIT"] [] [])
                   [("pkgA", GPL); ("pkgB", MIT)] (Ok [])) reporting)
     = [NonApproved; Approved]
  /\ returned (Execute (worldOf (policyOf ["MIT"] [] [])
                          [("pkgA", GPL); ("pkgB", MIT)] (Ok [])) reporting)
     = None.
Proof.
  split.
  - apply worldOf_Setting. apply (bool_decide_unpack _). vm_compute. exact I.
  - repeat split; vm_compute; reflexivity.
Qed.

(** ** Verdicts *)

(** C2 -- the verdict is Approved if and only if the license type is in
    the whitelist and not in the blacklist; a type in the blacklist is
    never Approved, whitelisted or not. *)
Theorem approved_iff_whitelisted_not_blacklisted (t : Config) (pkg : string)
    (lic : License) :
  (evaluate (makePolicy t) pkg lic = Approved
   <-> Type_ lic ∈ Whitelist t /\ Type_ lic ∉ Blacklist t)
  /\ (Type_ lic ∈ Blacklist t -> evaluate (makePolicy t) pkg lic <> Approved).
Proof.
  split; [apply evaluate_Approved |].
  intros Hb Ha. apply evaluate_Approved in Ha as [_ Hn]. done.
Qed.

(** The marker is removed alone when what precedes it does not end in
    ['/'] or ['.']. *)
Lemma TrimRight_marker_clean (p : string) :
  ends_clean "/..." p = true ->
  strings.TrimRight (p +:+ "/...") "/..." = p.
Proof.
  intros Hp. rewrite TrimRight_append by done. by apply TrimRight_clean.
Qed.

(** C3 -- an entry ending in the marker ["/..."] should lose exactly the
    marker.  [Execute] calls [strings.TrimRight], whose second argument is
    a set of characters: every trailing ['/'] and ['.'] goes.  The entry
    ["example.com/lib./..."] is stored as the prefix ["example.com/lib"],
    not ["example.com/lib."], and so exempts ["example.com/libfoo"]. *)
Theorem wildcard_entry_overtrimmed :
  strings.HasSuffix "example.com/lib./..." "/..." = true
  /\ strings.TrimSuffix "example.com/lib./..." "/..." = "example.com/lib."
  /\ strings.TrimRight "example.com/lib./..." "/..." = "example.com/lib"
  /\ map_to_list (makeExceptions ["example.com/lib./..."]).1 = []
  /\ map_to_list (makeExceptions ["example.com/lib./..."]).2
     = [("example.com/lib", true)]
  /\ evaluate (makePolicy (policyOf [] [] ["example.com/lib./..."]))
       "example.com/libfoo" GPL = Exceptioned
  /\ strings.HasPrefix "example.com/libfoo" "example.com/lib." = false.
Proof. repeat split; vm_compute; reflexivity. Qed.

(** C4, as stated, fails: a dependency named by an exact exception whose
    license is approved gets the Approved verdict, since that test comes
    first. *)
Lemma exact_exception_counterexample :
  ~ (forall (t : Config) (pkg : string) (lic : License),
        exactException t pkg ->
        evaluate (makePolicy t) pkg lic = Exceptioned
        /\ evaluate (makePolicy t) pkg lic <> NonApproved).
Proof.
  intros H.
  destruct (H (policyOf ["MIT"] [] ["pkgA"]) "pkgA" MIT) as [Hv _].
  - split; [by apply list_elem_of_here | done].
  - vm_compute in Hv. discriminate Hv.
Qed.

(** C4, amended -- a dependency whose identifier is an exact exception
    entry is never NonApproved, whatever its license type; its verdict is
    Exceptioned, unless the license type is whitelisted and not
    blacklisted, in which case it is Approved. *)
Theorem exact_exception_never_NonApproved (t : Config) (pkg : string)
    (lic : License) :
  exactException t pkg ->
  evaluate (makePolicy t) pkg lic <> NonApproved
  /\ (evaluate (makePolicy t) pkg lic = Exceptioned
      <-> ~ (Type_ lic ∈ Whitelist t /\ Type_ lic ∉ Blacklist t))
  /\ (evaluate (makePolicy t) pkg lic = Approved
      <-> Type_ lic ∈ Whitelist t /\ Type_ lic ∉ Blacklist t).
Proof.
  intros He. split; [|split].
  - intros (_ & _ & Hn)%evaluate_NonApproved. done.
  - rewrite evaluate_Exceptioned. split; [by intros [? _] | intros ?; split; auto].
  - apply evaluate_Approved.
Qed.

Lemma exact_exception_never_NonApproved_witness :
  exactException (policyOf [] [] ["github.com/foo/bar"]) "github.com/foo/bar"
  /\ evaluate (makePolicy (policyOf [] [] ["github.com/foo/bar"]))
       "github.com/foo/bar" GPL <> NonApproved.
Proof.
  split.
  - split; [by apply list_elem_of_here | reflexivity].
  - apply (exact_exception_never_NonApproved
             (policyOf [] [] ["github.com/foo/bar"]) "github.com/foo/bar" GPL).
    split; [by apply list_elem_of_here | reflexivity].
Defined.

(** ** Completeness of the log and of the report *)

Lemma report_sound_cases (n : nat) (w : World) (c : Check) :
  report_sound n w c ->
  (ReportOut c = "" /\ openReport w c = None)
  \/ exists fs, openReport w c
                = Some (Ok {| name := ReportOut c; contents := "";
                              faults := fs; closed := false |})
                /\ healthy n fs = true /\ ReportOut c <> "".
Proof.
  intros [Hno|(fs & Hcr & Hfs)].
  - left. split; [done | by apply openReport_none].
  - destruct (decide (ReportOut c = "")) as [He|Hne].
    + left. split; [done | by apply openReport_none].
    + right. exists fs. split; [by apply openReport_created | done].
Qed.

(** The log and the report of an audit that no write interrupts. *)
Lemma audit_sound (fm : TextFormatter) (t : Config)
    (order : list (string * License)) (w : World) (c : Check) :
  report_sound (S (length order)) w c ->
  logged_entries (audit fm t order (openReport w c)) = verdicts (makePolicy t) order
  /\ (ReportOut c <> "" ->
      exists f, reportFile (audit fm t order (openReport w c)) = Some f
                /\ contents f = licenseReportHeader +:+ render order
                /\ closed f = true)
  /\ (forall kv, last order = Some kv ->
                 evaluate (makePolicy t) kv.1 kv.2 = NonApproved ->
                 returned (audit fm t order (openReport w c)) = Some NonApprovedError)
  /\ ((forall kv, kv ∈ order -> evaluate (makePolicy t) kv.1 kv.2 <> NonApproved) ->
      returned (audit fm t order (openReport w c)) = None).
Proof.
  intros [[Hno ->]|(fs & -> & Hfs & Hne)]%report_sound_cases.
  - rewrite audit_plain. cbn [logged_entries reportFile returned].
    split; [done |]. split; [done |]. split.
    + intros kv Hl Hv.
      assert (existsb (violates (makePolicy t)) order = true) as ->; [|done].
      apply violates_exists. exists kv. split; [|done].
      destruct order as [|x xs _] using rev_ind; [done |].
      rewrite last_snoc in Hl. injection Hl as ->. set_solver.
    + intros Hall.
      destruct (existsb (violates (makePolicy t)) order) eqn:E; [|done].
      apply violates_exists in E as (kv & Hin & Hv). by destruct (Hall kv Hin).
  - destruct (audit_report fm t order (ReportOut c) fs Hfs)
      as (f & -> & _ & Hc & Hcl).
    cbn [logged_entries reportFile returned].
    split; [done |]. split; [intros _; by exists f |]. split.
    + intros kv -> Hv. unfold violates. by rewrite Hv.
    + intros Hall. destruct (last order) as [kv|] eqn:El; [|done].
      unfold violates.
      assert (kv ∈ order) as Hin.
      { destruct order as [|x xs _] using rev_ind; [done |].
        rewrite last_snoc in El. injection El as ->. set_solver. }
      specialize (Hall kv Hin). by destruct (evaluate (makePolicy t) kv.1 kv.2).
Qed.






(** A block of the report: the fixed text, the identifier, the fixed
    text, the license text and a newline. *)
Lemma reportEntry_eq (pkg : string) (lic : License) :
  reportEntry pkg lic = entryHead +:+ pkg +:+ entryMid +:+ Text lic +:+ nl.
Proof. vm_compute. reflexivity. Qed.

(** C6 -- with a report attached and no write failing, the report is the
    header, once, followed by one block for each input dependency, made
    of its identifier and then its license text; the verdicts play no
    part. *)
Theorem report_lists_every_dependency (w : World) (c : Check) (t : Config)
    (lics : gmap string License) (fs : list (option (nat * string))) :
  Setting w c t lics ->
  ReportOut c <> "" ->
  Create w (ReportOut c) = Ok fs ->
  healthy (S (size lics)) fs = true ->
  rangeOrder w lics ≡ₚ map_to_list lics
  /\ (exists f,
        reportFile (Execute w c) = Some f
        /\ name f = ReportOut c
        /\ contents f = licenseReportHeader +:+ render (rangeOrder w lics))
  /\ (forall kv later,
        render (kv :: later)
        = (entryHead +:+ kv.1 +:+ entryMid +:+ Text kv.2 +:+ nl) +:+ render later)
  /\ render [] = "".
Proof.
  intros Hset Hne Hcr Hfs.
  split; [by apply (Setting_order w c t) |]. split.
  - rewrite (Execute_Setting _ _ _ _ Hset), (openReport_created _ _ _ Hne Hcr).
    rewrite <- (Setting_length _ _ _ _ Hset) in Hfs.
    destruct (audit_report (SetFormatter c) t (rangeOrder w lics) (ReportOut c) fs Hfs)
      as (f & -> & Hn & Hc & _).
    by exists f.
  - split; [|done]. intros kv later. by rewrite render_cons, reportEntry_eq.
Qed.

Lemma report_lists_every_dependency_witness :
  Setting (worldOf (policyOf ["MIT"] [] []) [("pkgA", GPL); ("pkgB", MIT)] (Ok [None; None]))
    reporting (policyOf ["MIT"] [] []) (list_to_map [("pkgA", GPL); ("pkgB", MIT)])
  /\ ReportOut reporting <> ""
  /\ Create (worldOf (policyOf ["MIT"] [] []) [("pkgA", GPL); ("pkgB", MIT)]
               (Ok [None; None])) (ReportOut reporting) = Ok [None; None]
  /\ healthy (S (size (list_to_map [("pkgA", GPL); ("pkgB", MIT)]
                       : gmap string License))) [None; None] = true
  /\ exists f,
       reportFile (Execute (worldOf (policyOf ["MIT"] [] [])
                              [("pkgA", GPL); ("pkgB", MIT)] (Ok [None; None])) reporting)
       = Some f
       /\ name f = ReportOut reporting
       /\ contents f
          = licenseReportHeader
            +:+ render (rangeOrder (worldOf (policyOf ["MIT"] [] [])
                                      [("pkgA", GPL); ("pkgB", MIT)] (Ok [None; None]))
                          (list_to_map [("pkgA", GPL); ("pkgB", MIT)])).
Proof.
  assert (Setting (worldOf (policyOf ["MIT"] [] []) [("pkgA", GPL); ("pkgB", MIT)]
                     (Ok [None; None]))
            reporting (policyOf ["MIT"] [] [])
            (list_to_map [("pkgA", GPL); ("pkgB", MIT)])) as Hset.
  { apply worldOf_Setting. apply (bool_decide_unpack _). vm_compute. exact I. }
  split; [exact Hset |]. split; [discriminate |]. split; [reflexivity |].
  split; [vm_compute; reflexivity |].
  apply (report_lists_every_dependency _ _ _ _ [None; None] Hset);
    [discriminate | reflexivity | vm_compute; reflexivity].
Defined.

(** ** Order of the visit *)

Lemma existsb_perm {A : Type} (f : A -> bool) (l1 l2 : list A) :
  l1 ≡ₚ l2 -> existsb f l1 = existsb f l2.
Proof.
  intros Hp. apply eq_true_iff_eq. rewrite !existsb_exists.
  split; intros (x & Hin & Hx); exists x; split; try done.
  - by apply (Permutation_in _ Hp).
  - by apply (Permutation_in _ (Permutation_sym Hp)).
Qed.

(** C7, as stated, fails: [range] over a Go map yields the entries in an
    order of the runtime's choosing, and [Execute] does not sort them.
    Two runs on the same inputs, one visiting [pkgA] first and the other
    [pkgB] first, write different reports and different logs. *)
Lemma range_order_counterexample :
  ~ (forall (w1 w2 : World) (c : Check) (t : Config) (lics : gmap string License),
        same_inputs w1 w2 ->
        Setting w1 c t lics ->
        Setting w2 c t lics ->
        reportFile (Execute w1 c) = reportFile (Execute w2 c)
        /\ logged_entries (Execute w1 c) = logged_entries (Execute w2 c)).
Proof.
  intros H.
  assert ((list_to_map [("pkgB", MIT); ("pkgA", GPL)] : gmap string License)
          = list_to_map [("pkgA", GPL); ("pkgB", MIT)]) as Hmap.
  { vm_compute. reflexivity. }
  destruct (H (worldOf (policyOf ["MIT"] [] []) [("pkgA", GPL); ("pkgB", MIT)] (Ok []))
              (worldOf (policyOf ["MIT"] [] []) [("pkgB", MIT); ("pkgA", GPL)] (Ok []))
              reporting (policyOf ["MIT"] [] [])
              (list_to_map [("pkgA", GPL); ("pkgB", MIT)])) as [Hreport _].
  - unfold same_inputs, worldOf. cbn [ReadConfig Getwd Lstat Readlink WalkImports
                                        GetLicenses Create].
    rewrite Hmap. repeat apply conj; reflexivity.
  - apply worldOf_Setting. apply (bool_decide_unpack _). vm_compute. exact I.
  - rewrite <- Hmap.
    apply worldOf_Setting. apply (bool_decide_unpack _). vm_compute. exact I.
  - vm_compute in Hreport. discriminate Hreport.
Qed.

(** C7, amended -- in one run the dependencies are visited in one order,
    an enumeration of the map chosen by the runtime in which each
    dependency comes once; the log and the report of the run follow that
    order.  Two runs on the same inputs, when no write fails, enumerate
    permutations of the same entries: they give the same verdicts and the
    same blocks up to the order, and without report the same result. *)
Theorem runs_agree_up_to_order (w1 w2 : World) (c : Check) (t : Config)
    (lics : gmap string License) :
  same_inputs w1 w2 ->
  Setting w1 c t lics ->
  Setting w2 c t lics ->
  report_sound (S (size lics)) w1 c ->
  rangeOrder w1 lics ≡ₚ rangeOrder w2 lics
  /\ logged_entries (Execute w1 c) = verdicts (makePolicy t) (rangeOrder w1 lics)
  /\ logged_entries (Execute w2 c) = verdicts (makePolicy t) (rangeOrder w2 lics)
  /\ logged_entries (Execute w1 c) ≡ₚ logged_entries (Execute w2 c)
  /\ (ReportOut c <> "" ->
      exists f1 f2,
        reportFile (Execute w1 c) = Some f1
        /\ reportFile (Execute w2 c) = Some f2
        /\ contents f1 = licenseReportHeader +:+ render (rangeOrder w1 lics)
        /\ contents f2 = licenseReportHeader +:+ render (rangeOrder w2 lics))
  /\ (ReportOut c = "" -> returned (Execute w1 c) = returned (Execute w2 c)).
Proof.
  intros Hsame Hset1 Hset2 Hsound1.
  assert (report_sound (S (size lics)) w2 c) as Hsound2.
  { destruct Hsame as (_ & _ & _ & _ & _ & _ & Hcr).
    destruct Hsound1 as [?|Hs]; [by left | right]. by rewrite <- Hcr. }
  pose proof (Setting_order _ _ _ _ Hset1) as Hp1.
  pose proof (Setting_order _ _ _ _ Hset2) as Hp2.
  assert (rangeOrder w1 lics ≡ₚ rangeOrder w2 lics) as Hp by (by rewrite Hp1, Hp2).
  rewrite (Execute_Setting _ _ _ _ Hset1), (Execute_Setting _ _ _ _ Hset2).
  rewrite <- (Setting_length _ _ _ _ Hset1) in Hsound1.
  rewrite <- (Setting_length _ _ _ _ Hset2) in Hsound2.
  destruct (audit_sound (SetFormatter c) t _ w1 c Hsound1) as (Hl1 & Hr1 & _).
  destruct (audit_sound (SetFormatter c) t _ w2 c Hsound2) as (Hl2 & Hr2 & _).
  split; [done |]. split; [done |]. split; [done |].
  split; [rewrite Hl1, Hl2; unfold verdicts; by rewrite Hp |].
  split.
  - intros Hne.
    destruct (Hr1 Hne) as (f1 & ? & ? & _), (Hr2 Hne) as (f2 & ? & ? & _).
    by exists f1, f2.
  - intros Hno. rewrite !openReport_none, !audit_plain by done.
    cbn [returned]. by rewrite (existsb_perm _ _ _ Hp).
Qed.

Lemma runs_agree_up_to_order_witness :
  same_inputs
    (worldOf (policyOf ["MIT"] [] []) [("pkgA", GPL); ("pkgB", MIT)] (Ok []))
    (worldOf (policyOf ["MIT"] [] []) [("pkgB", MIT); ("pkgA", GPL)] (Ok []))
  /\ Setting (worldOf (policyOf ["MIT"] [] []) [("pkgA", GPL); ("pkgB", MIT)] (Ok []))
       reporting (policyOf ["MIT"] [] []) (list_to_map [("pkgA", GPL); ("pkgB", MIT)])
  /\ Setting (worldOf (policyOf ["MIT"] [] []) [("pkgB", MIT); ("pkgA", GPL)] (Ok []))
       reporting (policyOf ["MIT"] [] []) (list_to_map [("pkgA", GPL); ("pkgB", MIT)])
  /\ report_sound (S (size (list_to_map [("pkgA", GPL); ("pkgB", MIT)]
                            : gmap string License)))
       (worldOf (policyOf ["MIT"] [] []) [("pkgA", GPL); ("pkgB", MIT)] (Ok []))
       reporting
  /\ logged_entries
       (Execute (worldOf (policyOf ["MIT"] [] []) [("pkgA", GPL); ("pkgB", MIT)] (Ok []))
          reporting)
     ≡ₚ logged_entries
          (Execute (worldOf (policyOf ["MIT"] [] []) [("pkgB", MIT); ("pkgA", GPL)] (Ok []))
             reporting).
Proof.
  assert ((list_to_map [("pkgB", MIT); ("pkgA", GPL)] : gmap string License)
          = list_to_map [("pkgA", GPL); ("pkgB", MIT)]) as Hmap.
  { vm_compute. reflexivity. }
  assert (same_inputs
            (worldOf (policyOf ["MIT"] [] []) [("pkgA", GPL); ("pkgB", MIT)] (Ok []))
            (worldOf (policyOf ["MIT"] [] []) [("pkgB", MIT); ("pkgA", GPL)] (Ok [])))
    as Hsame.
  { unfold same_inputs, worldOf. cbn [ReadConfig Getwd Lstat Readlink WalkImports
                                        GetLicenses Create].
    rewrite Hmap. repeat apply conj; reflexivity. }
  assert (Setting (worldOf (policyOf ["MIT"] [] []) [("pkgA", GPL); ("pkgB", MIT)] (Ok []))
            reporting (policyOf ["MIT"] [] [])
            (list_to_map [("pkgA", GPL); ("pkgB", MIT)])) as Hset1.
  { apply worldOf_Setting. apply (bool_decide_unpack _). vm_compute. exact I. }
  assert (Setting (worldOf (policyOf ["MIT"] [] []) [("pkgB", MIT); ("pkgA", GPL)] (Ok []))
            reporting (policyOf ["MIT"] [] [])
            (list_to_map [("pkgA", GPL); ("pkgB", MIT)])) as Hset2.
  { rewrite <- Hmap.
    apply worldOf_Setting. apply (bool_decide_unpack _). vm_compute. exact I. }
  assert (report_sound (S (size (list_to_map [("pkgA", GPL); ("pkgB", MIT)]
                                 : gmap string License)))
            (worldOf (policyOf ["MIT"] [] []) [("pkgA", GPL); ("pkgB", MIT)] (Ok []))
            reporting) as Hsound.
  { right. exists []. split; reflexivity. }
  split; [exact Hsame |]. split; [exact Hset1 |]. split; [exact Hset2 |].
  split; [exact Hsound |].
  apply (runs_agree_up_to_order _ _ _ _ _ Hsame Hset1 Hset2 Hsound).
Defined.

(** ** Unrecognized licenses *)

(** C8, as stated, fails: the empty type is looked up in the whitelist
    like any other, and a whitelist that lists the empty string approves
    a dependency whose license was not recognized. *)
Lemma unrecognized_counterexample :
  ~ (forall (t : Config) (pkg : string) (lic : License),
        Type_ lic = "" ->
        evaluate (makePolicy t) pkg lic <> Approved
        /\ (~ prefixException t pkg -> ~ exactException t pkg ->
            evaluate (makePolicy t) pkg lic = NonApproved)).
Proof.
  intros H.
  destruct (H (policyOf [""] [] []) "pkgX" undetected) as [Hv _]; [reflexivity |].
  apply Hv. vm_compute. reflexivity.
Qed.

(** C8, amended -- for a dependency whose license type is the empty
    string, the Approved rule does not fire unless the whitelist itself
    lists the empty string and the blacklist does not; when it does not
    fire, the verdict is Exceptioned if an exact or prefix exception covers
    the dependency and NonApproved otherwise. *)
Theorem unrecognized_not_approved (t : Config) (pkg : string) (lic : License) :
  Type_ lic = "" ->
  "" ∉ Whitelist t \/ "" ∈ Blacklist t ->
  evaluate (makePolicy t) pkg lic <> Approved
  /\ (evaluate (makePolicy t) pkg lic = Exceptioned
      <-> prefixException t pkg \/ exactException t pkg)
  /\ (evaluate (makePolicy t) pkg lic = NonApproved
      <-> ~ prefixException t pkg /\ ~ exactException t pkg).
Proof.
  intros Hty Hlist.
  assert (~ (Type_ lic ∈ Whitelist t /\ Type_ lic ∉ Blacklist t)) as Hna.
  { rewrite Hty. intros [Hw Hb]. by destruct Hlist. }
  split; [by rewrite evaluate_Approved |].
  rewrite evaluate_Exceptioned, evaluate_NonApproved. split; split; try tauto.
Qed.

Lemma unrecognized_not_approved_witness :
  Type_ undetected = ""
  /\ ("" ∉ Whitelist (policyOf [] [] []) \/ "" ∈ Blacklist (policyOf [] [] []))
  /\ evaluate (makePolicy (policyOf [] [] [])) "pkgX" undetected <> Approved.
Proof.
  split; [reflexivity |]. split; [left; apply not_elem_of_nil |].
  apply (unrecognized_not_approved (policyOf [] [] []) "pkgX" undetected);
    [reflexivity | left; apply not_elem_of_nil].
Defined.

(** ** Failing writes *)

(** C9 -- when a write to the report fails, [Execute] returns at once with
    the error of the write, a [*PathError] and not the error of a
    non-approved license, whatever verdicts came before.  Of the [k]
    writes that succeed before the fault, the first is the header and the
    others the blocks of the first [k - 1] dependencies; these are the
    only dependencies judged, and the report ends with the [b] bytes of
    the failed write that went through. *)
Theorem write_fault_propagates (w : World) (c : Check) (t : Config)
    (lics : gmap string License) (k b : nat) (e : string)
    (later : list (option (nat * string))) :
  Setting w c t lics ->
  ReportOut c <> "" ->
  Create w (ReportOut c) = Ok (replicate k None ++ Some (b, e) :: later) ->
  k <= size lics ->
  returned (Execute w c) = Some (PathError "write" (ReportOut c) e)
  /\ returned (Execute w c) <> Some NonApprovedError
  /\ logged_entries (Execute w c)
     = verdicts (makePolicy t) (take (k - 1) (rangeOrder w lics))
  /\ exists f,
       reportFile (Execute w c) = Some f
       /\ closed f = true
       /\ match k with
          | 0 => contents f = String.substring 0 b licenseReportHeader
          | S j =>
              exists kv,
                rangeOrder w lics !! j = Some kv
                /\ contents f
                   = licenseReportHeader +:+ render (take j (rangeOrder w lics))
                     +:+ String.substring 0 b (reportEntry kv.1 kv.2)
          end.
Proof.
  intros Hset Hne Hcr Hk.
  rewrite (Execute_Setting _ _ _ _ Hset), (openReport_created _ _ _ Hne Hcr).
  rewrite <- (Setting_length _ _ _ _ Hset) in Hk.
  destruct k as [|k].
  - rewrite app_nil_l, audit_fault_header. cbn [returned logged_entries reportFile].
    split; [done |]. split; [done |]. split; [done |]. by eexists.
  - replace (S k - 1) with k by lia.
    destruct (lookup_lt_is_Some_2 (rangeOrder w lics) k) as [kv Hkv]; [lia |].
    assert (length (take k (rangeOrder w lics)) = k) as Hlen.
    { rewrite length_take. lia. }
    destruct (audit_fault_entry (SetFormatter c) t (take k (rangeOrder w lics)) kv
                (drop (S k) (rangeOrder w lics)) (ReportOut c) e b later)
      as (f & Haud & _ & Hc & Hcl).
    rewrite (take_drop_middle _ _ _ Hkv), Hlen in Haud.
    change (replicate (S k) None ++ Some (b, e) :: later)
      with (@None (nat * string) :: replicate k None ++ Some (b, e) :: later).
    rewrite Haud.
    cbn [returned logged_entries reportFile].
    split; [done |]. split; [done |]. split; [done |].
    exists f. split; [done |]. split; [done |]. by exists kv.
Qed.

Lemma write_fault_propagates_witness :
  Setting (worldOf (policyOf ["MIT"] [] []) [("pkgA", GPL); ("pkgB", MIT)]
             (Ok [None; None; Some (0, "no space left on device")]))
    reporting (policyOf ["MIT"] [] []) (list_to_map [("pkgA", GPL); ("pkgB", MIT)])
  /\ ReportOut reporting <> ""
  /\ Create (worldOf (policyOf ["MIT"] [] []) [("pkgA", GPL); ("pkgB", MIT)]
               (Ok [None; None; Some (0, "no space left on device")]))
       (ReportOut reporting)
     = Ok (replicate 2 None ++ Some (0, "no space left on device") :: [])
  /\ 2 <= size (list_to_map [("pkgA", GPL); ("pkgB", MIT)] : gmap string License)
  /\ returned (Execute (worldOf (policyOf ["MIT"] [] []) [("pkgA", GPL); ("pkgB", MIT)]
                          (Ok [None; None; Some (0, "no space left on device")]))
                 reporting)
     = Some (PathError "write" (ReportOut reporting) "no space left on device").
Proof.
  assert (Setting (worldOf (policyOf ["MIT"] [] []) [("pkgA", GPL); ("pkgB", MIT)]
                     (Ok [None; None; Some (0, "no space left on device")]))
            reporting (policyOf ["MIT"] [] [])
            (list_to_map [("pkgA", GPL); ("pkgB", MIT)])) as Hset.
  { apply worldOf_Setting. apply (bool_decide_unpack _). vm_compute. exact I. }
  assert (2 <= size (list_to_map [("pkgA", GPL); ("pkgB", MIT)] : gmap string License))
    as Hk.
  { vm_compute. lia. }
  split; [exact Hset |]. split; [discriminate |]. split; [reflexivity |].
  split; [exact Hk |].
  apply (write_fault_propagates _ _ _ _ 2 0 "no space left on device" [] Hset);
    [discriminate | reflexivity | exact Hk].
Defined.

(** ** The entry made of the marker alone *)

Lemma all_in_append (cutset a b : string) :
  all_in cutset (a +:+ b) = all_in cutset a && all_in cutset b.
Proof.
  induction a as [|c a IH]; [done |].
  rewrite append_cons. simpl. by rewrite IH, andb_assoc.
Qed.

(** The cutset ["/..."] is the set of the two characters ['/'] and ['.']. *)
Lemma contains_marker (c : ascii) :
  strings.contains "/..." c = strings.contains "/." c.
Proof. simpl. by destruct (Ascii.eqb c "/"), (Ascii.eqb c "."). Qed.

Lemma all_in_marker (q : string) : all_in "/..." q = all_in "/." q.
Proof.
  induction q as [|c q IH]; [done |].
  change (all_in "/..." (String c q))
    with (strings.contains "/..." c && all_in "/..." q).
  change (all_in "/." (String c q))
    with (strings.contains "/." c && all_in "/." q).
  by rewrite contains_marker, IH.
Qed.

(** C10 -- an exception entry that ends in the marker and is otherwise
    made of ['/'] and ['.'] only (the entry ["/..."], for one) is
    normalised to the empty prefix, which is a prefix of every
    identifier: every dependency that is not Approved is Exceptioned,
    whatever the blacklist, and a run that no write interrupts
    succeeds. *)
Theorem empty_prefix_exempts_everything (t : Config) (p : string) :
  (p +:+ "/...") ∈ Exceptions t ->
  all_in "/." p = true ->
  strings.HasSuffix (p +:+ "/...") "/..." = true
  /\ strings.TrimRight (p +:+ "/...") "/..." = ""
  /\ is_Some (exceptionsWildcard (makePolicy t) !! "")
  /\ (forall pkg, strings.HasPrefix pkg "" = true)
  /\ (forall pkg lic,
        evaluate (makePolicy t) pkg lic <> Approved ->
        evaluate (makePolicy t) pkg lic = Exceptioned)
  /\ (forall w c lics,
        Setting w c t lics ->
        report_sound (S (size lics)) w c ->
        returned (Execute w c) = None
        /\ forall entry, entry ∈ logged_entries (Execute w c) ->
                         verdictOf entry <> NonApproved).
Proof.
  intros Hin Hp.
  assert (strings.HasSuffix (p +:+ "/...") "/..." = true) as Hsuf.
  { apply HasSuffix_iff. by exists p. }
  assert (strings.TrimRight (p +:+ "/...") "/..." = "") as Htrim.
  { apply TrimRight_all_in. by rewrite all_in_append, all_in_marker, Hp. }
  assert (forall pkg, prefixException t pkg) as Hpre.
  { intros pkg. exists (p +:+ "/..."). split; [done |]. split; [done |].
    rewrite Htrim. apply HasPrefix_empty. }
  assert (forall pkg lic, evaluate (makePolicy t) pkg lic <> NonApproved) as Hnon.
  { intros pkg lic (_ & Hn & _)%evaluate_NonApproved. by destruct Hn. }
  split; [done |]. split; [done |]. split.
  { apply makeExceptions_wildcard. by exists (p +:+ "/..."). }
  split; [apply HasPrefix_empty |]. split.
  { intros pkg lic Hna. specialize (Hnon pkg lic).
    by destruct (evaluate (makePolicy t) pkg lic). }
  intros w c lics Hset Hsound.
  rewrite (Execute_Setting _ _ _ _ Hset).
  rewrite <- (Setting_length _ _ _ _ Hset) in Hsound.
  destruct (audit_sound (SetFormatter c) t _ w c Hsound) as (Hlog & _ & _ & Hnone).
  split; [apply Hnone; intros kv _; apply Hnon |].
  rewrite Hlog. unfold verdicts. intros entry ([pkg lic] & -> & _)%list_elem_of_fmap.
  simpl. specialize (Hnon pkg lic). by destruct (evaluate (makePolicy t) pkg lic).
Qed.

Lemma empty_prefix_exempts_everything_witness :
  ("" +:+ "/...") ∈ Exceptions (policyOf [] ["GPL-3.0"] ["/..."])
  /\ all_in "/." "" = true
  /\ evaluate (makePolicy (policyOf [] ["GPL-3.0"] ["/..."])) "pkgA" GPL = Exceptioned.
Proof.
  split; [apply list_elem_of_here |]. split; [reflexivity |].
  apply (empty_prefix_exempts_everything (policyOf [] ["GPL-3.0"] ["/..."]) "");
    [apply list_elem_of_here | reflexivity |].
  vm_compute. discriminate.
Defined.

(** * Further properties of the code *)

(** ** [rootDir] *)

(** The test [info.Mode()&os.ModeSymlink != 0] reads bit 27 of the mode. *)
Lemma ModeSymlink_bit (mode : Z) :
  (Z.land mode ModeSymlink =? 0)%Z = negb (Z.testbit mode 27).
Proof.
  assert (Z.land mode ModeSymlink
          = if Z.testbit mode 27 then ModeSymlink else 0%Z) as ->.
  { apply Z.bits_inj'. intros n Hn. rewrite Z.land_spec.
    unfold ModeSymlink. rewrite Z.shiftl_1_l, Z.pow2_bits_eqb by lia.
    destruct (Z.eqb_spec 27 n) as [<-|Hne].
    - rewrite andb_true_r. destruct (Z.testbit mode 27) eqn:E; [|done].
      by rewrite Z.pow2_bits_true.
    - rewrite andb_false_r. destruct (Z.testbit mode 27); [|by rewrite Z.bits_0].
      rewrite Z.pow2_bits_false; [done | lia]. }
  by destruct (Z.testbit mode 27).
Qed.

(** X1 -- [rootDir] answers the working directory itself when bit 27 of
    its mode (the symlink bit) is clear, whatever the other bits, and the
    answer of [os.Readlink] on it, target or error, when the bit is set. *)
Theorem rootDir_symlink_bit (w : World) (cwd : string) (mode : Z) :
  Getwd w = Ok cwd ->
  Lstat w cwd = Ok mode ->
  rootDir w = if Z.testbit mode 27 then Readlink w cwd else Ok cwd.
Proof.
  intros Hcwd Hmode. unfold rootDir. rewrite Hcwd, Hmode, ModeSymlink_bit.
  rewrite negb_involutive. destruct (Z.testbit mode 27); [|done].
  by destruct (Readlink w cwd).
Qed.

Lemma rootDir_symlink_bit_witness :
  Getwd (withRoot (worldOf (policyOf [] [] []) [] (Ok []))
           (Ok "/home/user/link") (Ok 134218239%Z) (Ok "/srv/project"))
  = Ok "/home/user/link"
  /\ Lstat (withRoot (worldOf (policyOf [] [] []) [] (Ok []))
              (Ok "/home/user/link") (Ok 134218239%Z) (Ok "/srv/project"))
       "/home/user/link" = Ok 134218239%Z
  /\ rootDir (withRoot (worldOf (policyOf [] [] []) [] (Ok []))
                (Ok "/home/user/link") (Ok 134218239%Z) (Ok "/srv/project"))
     = Ok "/srv/project".
Proof.
  split; [reflexivity |]. split; [reflexivity |].
  apply (rootDir_symlink_bit
           (withRoot (worldOf (policyOf [] [] []) [] (Ok []))
              (Ok "/home/user/link") (Ok 134218239%Z) (Ok "/srv/project"))
           "/home/user/link" 134218239%Z); reflexivity.
Defined.

(** X2 -- [rootDir] fails exactly when one of the calls into [os] that it
    makes fails, and with the error of that call: [Getwd], [Lstat] on the
    working directory, or [Readlink], which is called for a symlink
    only. *)
Theorem rootDir_fails_iff (w : World) (e : error) :
  rootDir w = Err e
  <-> Getwd w = Err e
      \/ exists cwd,
           Getwd w = Ok cwd
           /\ (Lstat w cwd = Err e
               \/ exists mode,
                    Lstat w cwd = Ok mode
                    /\ Z.testbit mode 27 = true
                    /\ Readlink w cwd = Err e).
Proof.
  unfold rootDir. destruct (Getwd w) as [cwd|e0] eqn:Hcwd.
  - destruct (Lstat w cwd) as [mode|e1] eqn:Hmode.
    + rewrite ModeSymlink_bit, negb_involutive.
      destruct (Z.testbit mode 27) eqn:Hbit.
      * destruct (Readlink w cwd) as [target|e2] eqn:Hlink; split.
        -- done.
        -- intros [?|(cwd' & ? & [?|(mode' & ? & ? & ?)])]; congruence.
        -- intros [= ->]. right. exists cwd. split; [done |]. right.
           by exists mode.
        -- intros [?|(cwd' & ? & [?|(mode' & ? & ? & ?)])]; congruence.
      * split; [done |].
        intros [?|(cwd' & ? & [?|(mode' & ? & ? & ?)])]; congruence.
    + split.
      * intros [= ->]. right. exists cwd. split; [done | by left].
      * intros [?|(cwd' & ? & [?|(mode' & ? & ? & ?)])]; congruence.
  - split.
    + intros [= ->]. by left.
    + intros [?|(cwd' & ? & _)]; congruence.
Qed.

(** ** [Check.Execute]: the ways out before the loop *)

(** X3 -- when the configuration cannot be read, [Execute] returns a new
    error whose text is ["Can't read config file: "] followed by the text
    of the error of [ReadConfig]; the error value itself is not handed
    on (what is returned is never a [*PathError], even when [ReadConfig]
    answered one); no verdict is logged and no report is created. *)
Theorem Execute_config_unreadable (w : World) (c : Check) (e : error) :
  ReadConfig w (File c) = Err e ->
  returned (Execute w c)
  = Some (errorString ("Can't read config file: " +:+ Error e))
  /\ (forall op path msg, returned (Execute w c) <> Some (PathError op path msg))
  /\ logged_entries (Execute w c) = []
  /\ reportFile (Execute w c) = None.
Proof.
  intros He. unfold Execute. rewrite He.
  assert (fmt.Sprintf "Can't read config file: %s" [Error e]
          = "Can't read config file: " +:+ Error e) as ->.
  { cbv [fmt.Sprintf]. rewrite append_empty_r. reflexivity. }
  done.
Qed.

Lemma Execute_config_unreadable_witness :
  ReadConfig (withReadConfig (worldOf (policyOf [] [] []) [("pkgA", MIT)] (Ok []))
                (Err (PathError "open" ".wwhrd.yml" "no such file or directory")))
    (File reporting)
  = Err (PathError "open" ".wwhrd.yml" "no such file or directory")
  /\ returned (Execute
                 (withReadConfig (worldOf (policyOf [] [] []) [("pkgA", MIT)] (Ok []))
                    (Err (PathError "open" ".wwhrd.yml" "no such file or directory")))
                 reporting)
     = Some (errorString
               ("Can't read config file: "
                +:+ Error (PathError "open" ".wwhrd.yml" "no such file or directory"))).
Proof.
  split; [reflexivity |].
  apply (Execute_config_unreadable
           (withReadConfig (worldOf (policyOf [] [] []) [("pkgA", MIT)] (Ok []))
              (Err (PathError "open" ".wwhrd.yml" "no such file or directory")))
           reporting (PathError "open" ".wwhrd.yml" "no such file or directory")).
  reflexivity.
Defined.

(** X4 -- once the configuration is read, the error of [rootDir], of
    [WalkImports] or of [os.Create] is returned as it is; in each case no
    verdict is logged and no report is left. *)
Theorem Execute_collaborator_error (w : World) (c : Check) (t : Config) (e : error) :
  ReadConfig w (File c) = Ok t ->
  rootDir w = Err e
  \/ (exists root, rootDir w = Ok root /\ WalkImports w root = Err e)
  \/ (exists root pkgs,
        rootDir w = Ok root /\ WalkImports w root = Ok pkgs
        /\ ReportOut c <> "" /\ Create w (ReportOut c) = Err e) ->
  returned (Execute w c) = Some e
  /\ logged_entries (Execute w c) = []
  /\ reportFile (Execute w c) = None.
Proof.
  intros Ht [Hr|[(root & Hr & Hw)|(root & pkgs & Hr & Hw & Hne & Hcr)]];
    unfold Execute; rewrite Ht, Hr; [done | by rewrite Hw |].
  rewrite Hw. unfold openReport. rewrite Hcr.
  destruct (String.eqb_spec (ReportOut c) ""); done.
Qed.

Lemma Execute_collaborator_error_witness :
  ReadConfig (worldOf (policyOf ["MIT"] [] []) [("pkgA", GPL)]
                (Err (PathError "open" "NOTICE.txt" "permission denied")))
    (File reporting) = Ok (policyOf ["MIT"] [] [])
  /\ (rootDir (worldOf (policyOf ["MIT"] [] []) [("pkgA", GPL)]
                 (Err (PathError "open" "NOTICE.txt" "permission denied")))
      = Err (PathError "open" "NOTICE.txt" "permission denied")
      \/ (exists root,
            rootDir (worldOf (policyOf ["MIT"] [] []) [("pkgA", GPL)]
                       (Err (PathError "open" "NOTICE.txt" "permission denied")))
            = Ok root
            /\ WalkImports (worldOf (policyOf ["MIT"] [] []) [("pkgA", GPL)]
                              (Err (PathError "open" "NOTICE.txt" "permission denied")))
                 root
               = Err (PathError "open" "NOTICE.txt" "permission denied"))
      \/ (exists root pkgs,
            rootDir (worldOf (policyOf ["MIT"] [] []) [("pkgA", GPL)]
                       (Err (PathError "open" "NOTICE.txt" "permission denied")))
            = Ok root
            /\ WalkImports (worldOf (policyOf ["MIT"] [] []) [("pkgA", GPL)]
                              (Err (PathError "open" "NOTICE.txt" "permission denied")))
                 root = Ok pkgs
            /\ ReportOut reporting <> ""
            /\ Create (worldOf (policyOf ["MIT"] [] []) [("pkgA", GPL)]
                         (Err (PathError "open" "NOTICE.txt" "permission denied")))
                 (ReportOut reporting)
               = Err (PathError "open" "NOTICE.txt" "permission denied")))
  /\ logged_entries
       (Execute (worldOf (policyOf ["MIT"] [] []) [("pkgA", GPL)]
                   (Err (PathError "open" "NOTICE.txt" "permission denied")))
          reporting) = [].
Proof.
  assert (exists root pkgs,
            rootDir (worldOf (policyOf ["MIT"] [] []) [("pkgA", GPL)]
                       (Err (PathError "open" "NOTICE.txt" "permission denied")))
            = Ok root
            /\ WalkImports (worldOf (policyOf ["MIT"] [] []) [("pkgA", GPL)]
                              (Err (PathError "open" "NOTICE.txt" "permission denied")))
                 root = Ok pkgs
            /\ ReportOut reporting <> ""
            /\ Create (worldOf (policyOf ["MIT"] [] []) [("pkgA", GPL)]
                         (Err (PathError "open" "NOTICE.txt" "permission denied")))
                 (ReportOut reporting)
               = Err (PathError "open" "NOTICE.txt" "permission denied")) as H.
  { eexists _, _. split; [reflexivity |]. split; [reflexivity |].
    split; [discriminate | reflexivity]. }
  split; [reflexivity |]. split; [right; right; exact H |].
  apply (Execute_collaborator_error _ reporting (policyOf ["MIT"] [] [])
           (PathError "open" "NOTICE.txt" "permission denied"));
    [reflexivity | right; right; exact H].
Defined.

(** ** [Check.Execute]: what holds of every run *)

Section AnyRun.

Variable p : Policy.

(** Whatever the writes do: the log grows by the verdicts of an initial
    segment of the entries, the report stays the same file, open or not
    as it was, and the error of a non-approved license is left only by an
    entry that is non-approved. *)
Lemma PackageList_any (order : list (string * License)) (s : Frame) :
  exists k,
    k <= length order
    /\ logs (PackageList p s order) = logs s ++ verdicts p (take k order)
    /\ (report s = None -> report (PackageList p s order) = None)
    /\ (forall f, report s = Some f ->
                  exists f', report (PackageList p s order) = Some f'
                             /\ name f' = name f /\ closed f' = closed f)
    /\ (err (PackageList p s order) = Some NonApprovedError ->
        err s = Some NonApprovedError
        \/ exists kv, kv ∈ order /\ violates p kv = true).
Proof.
  revert s. induction order as [|kv order IH]; intros s.
  - exists 0. simpl. rewrite app_nil_r. repeat split; eauto.
  - rewrite PackageList_cons. unfold iteration.
    destruct (report s) as [f|] eqn:Hs.
    + assert (healthy 1 (faults f) = true ->
              exists k,
                k <= length (kv :: order)
                /\ logs (PackageList p
                           (judge p {| err := None;
                                       report := Some (written f (reportEntry kv.1 kv.2));
                                       logs := logs s |} kv.1 kv.2) order)
                   = logs s ++ verdicts p (take k (kv :: order))
                /\ (Some f = None ->
                    report (PackageList p
                              (judge p {| err := None;
                                          report := Some (written f (reportEntry kv.1 kv.2));
                                          logs := logs s |} kv.1 kv.2) order) = None)
                /\ (forall f0, Some f = Some f0 ->
                      exists f',
                        report (PackageList p
                                  (judge p {| err := None;
                                              report := Some (written f (reportEntry kv.1 kv.2));
                                              logs := logs s |} kv.1 kv.2) order) = Some f'
                        /\ name f' = name f0 /\ closed f' = closed f0)
                /\ (err (PackageList p
                           (judge p {| err := None;
                                       report := Some (written f (reportEntry kv.1 kv.2));
                                       logs := logs s |} kv.1 kv.2) order)
                    = Some NonApprovedError ->
                    err s = Some NonApprovedError
                    \/ exists kv0, kv0 ∈ kv :: order /\ violates p kv0 = true)) as Hok.
      { intros _.
        destruct (IH (judge p {| err := None;
                                 report := Some (written f (reportEntry kv.1 kv.2));
                                 logs := logs s |} kv.1 kv.2))
          as (k & Hk & Hlog & _ & Hrep & Herr).
        exists (S k). rewrite Hlog. rewrite judge_eq in Hrep, Herr |- *.
        cbn [err report logs] in *.
        split; [simpl; lia |]. split; [by rewrite <- app_assoc |].
        split; [done |]. split.
        { intros f0 [= <-]. destruct (Hrep _ eq_refl) as (f' & Hf' & Hn' & Hc').
          exists f'. split; [done |]. by rewrite Hn', Hc'. }
        intros H. right. destruct (Herr H) as [Hv|(kv' & Hin & Hv)].
        - exists kv. split; [by left |]. by destruct (violates p kv).
        - exists kv'. split; [by right | done]. }
      destruct (faults f) as [|[[n e]|] later] eqn:Hf.
      * rewrite WriteString_ok by (by rewrite Hf). by apply Hok.
      * rewrite (WriteString_fault _ _ _ _ _ Hf). exists 0.
        cbn [err report logs]. split; [lia |]. rewrite app_nil_r.
        split; [done |]. split; [done |]. split; [|done].
        intros f0 [= <-]. by eexists.
      * rewrite WriteString_ok by (by rewrite Hf). by apply Hok.
    + destruct (IH (judge p s kv.1 kv.2)) as (k & Hk & Hlog & Hnone & _ & Herr).
      exists (S k). rewrite Hlog. rewrite judge_eq in Hnone, Herr |- *.
      cbn [err report logs] in *.
      split; [simpl; lia |]. split; [by rewrite <- app_assoc |].
      split; [intros _; by apply Hnone |]. split; [done |].
      intros H. destruct (Herr H) as [Hv|(kv' & Hin & Hv)].
      * destruct (violates p kv) eqn:Ev; [|by left].
        right. exists kv. split; [by left | done].
      * right. exists kv'. split; [by right | done].
Qed.

End AnyRun.

(** The audit, whatever [os.Create] and the writes answer. *)
Lemma audit_any (fm : TextFormatter) (t : Config)
    (order : list (string * License)) (out : option (result OsFile)) :
  (exists k, k <= length order
             /\ logged_entries (audit fm t order out)
                = verdicts (makePolicy t) (take k order))
  /\ (forall f, reportFile (audit fm t order out) = Some f ->
                closed f = true
                /\ exists f0, out = Some (Ok f0) /\ name f = name f0)
  /\ (logged_entries (audit fm t order out) <> [] ->
      out = None
      \/ exists f0, out = Some (Ok f0) /\ healthy 1 (faults f0) = true)
  /\ (out = None \/ (exists f0, out = Some (Ok f0)) ->
      returned (audit fm t order out) = Some NonApprovedError ->
      exists kv, kv ∈ order /\ violates (makePolicy t) kv = true).
Proof.
  unfold audit. destruct out as [[f0|e]|].
  - destruct (faults f0) as [|[[n e]|] later] eqn:Hf.
    + rewrite WriteString_ok by (by rewrite Hf).
      destruct (PackageList_any (makePolicy t) order
                  {| err := None;
                     report := Some (written f0 licenseReportHeader);
                     logs := [] |}) as (k & Hk & Hlog & _ & Hrep & Herr).
      destruct (Hrep _ eq_refl) as (f' & Hf' & Hn & Hc).
      cbn [logged_entries reportFile returned]. rewrite Hf'.
      split; [by exists k |]. split.
      { intros f [= <-]. split; [done |]. by exists f0. }
      split.
      { intros _. right. exists f0. by rewrite Hf. }
      intros _ H. by destruct (Herr H).
    + rewrite (WriteString_fault _ _ _ _ _ Hf).
      cbn [logged_entries reportFile returned].
      split; [exists 0; split; [lia | done] |]. split.
      { intros f [= <-]. split; [done |]. by exists f0. }
      split; done.
    + rewrite WriteString_ok by (by rewrite Hf).
      destruct (PackageList_any (makePolicy t) order
                  {| err := None;
                     report := Some (written f0 licenseReportHeader);
                     logs := [] |}) as (k & Hk & Hlog & _ & Hrep & Herr).
      destruct (Hrep _ eq_refl) as (f' & Hf' & Hn & Hc).
      cbn [logged_entries reportFile returned]. rewrite Hf'.
      split; [by exists k |]. split.
      { intros f [= <-]. split; [done |]. by exists f0. }
      split.
      { intros _. right. exists f0. by rewrite Hf. }
      intros _ H. by destruct (Herr H).
  - cbn [logged_entries reportFile returned].
    split; [exists 0; split; [lia | done] |]. split; [done |].
    split; [done |]. intros [?|[f0 ?]]; done.
  - destruct (PackageList_any (makePolicy t) order
                {| err := None; report := None; logs := [] |})
      as (k & Hk & Hlog & _ & _ & Herr).
    cbn [logged_entries reportFile returned].
    split; [by exists k |]. split; [done |]. split; [by left |].
    intros _ H. by destruct (Herr H).
Qed.

(** The four ends of [Execute]. *)
Lemma Execute_cases (w : World) (c : Check) :
  (exists e, Execute w c = failed (SetFormatter c) e)
  \/ exists t root pkgs,
       ReadConfig w (File c) = Ok t
       /\ rootDir w = Ok root
       /\ WalkImports w root = Ok pkgs
       /\ Execute w c
          = audit (SetFormatter c) t
              (rangeOrder w (GetLicenses w root pkgs)) (openReport w c).
Proof.
  unfold Execute.
  destruct (ReadConfig w (File c)) as [t|e] eqn:Ht; [|left; by eexists].
  destruct (rootDir w) as [root|e] eqn:Hr; [|left; by eexists].
  destruct (WalkImports w root) as [pkgs|e] eqn:Hw; [|left; by eexists].
  right. exists t, root, pkgs. repeat split; done.
Qed.

Lemma openReport_inv (w : World) (c : Check) (f0 : OsFile) :
  openReport w c = Some (Ok f0) ->
  ReportOut c <> ""
  /\ name f0 = ReportOut c
  /\ Create w (ReportOut c) = Ok (faults f0).
Proof.
  unfold openReport. destruct (String.eqb_spec (ReportOut c) ""); [done |].
  destruct (Create w (ReportOut c)) as [fs|e]; [|done].
  by intros [= <-].
Qed.

(** X5 -- a verdict in the log means that the configuration was read,
    the root found and the imports walked, and, when a report is asked
    for, that the file was created and the header written: [Execute]
    judges no dependency before. *)
Theorem Execute_judges_after_header (w : World) (c : Check) :
  logged_entries (Execute w c) <> [] ->
  exists t root pkgs,
    ReadConfig w (File c) = Ok t
    /\ rootDir w = Ok root
    /\ WalkImports w root = Ok pkgs
    /\ (ReportOut c = ""
        \/ exists fs, Create w (ReportOut c) = Ok fs /\ healthy 1 fs = true).
Proof.
  destruct (Execute_cases w c) as [[e ->]|(t & root & pkgs & Ht & Hr & Hw & ->)];
    [done |].
  intros Hlog. exists t, root, pkgs. split; [done |]. split; [done |].
  split; [done |].
  destruct (audit_any (SetFormatter c) t
              (rangeOrder w (GetLicenses w root pkgs)) (openReport w c))
    as (_ & _ & Hhead & _).
  destruct (Hhead Hlog) as [Hnone|(f0 & Hf0 & Hh)].
  - left. unfold openReport in Hnone.
    destruct (String.eqb_spec (ReportOut c) ""); done.
  - right. apply openReport_inv in Hf0 as (_ & _ & Hcr). by exists (faults f0).
Qed.

Lemma Execute_judges_after_header_witness :
  logged_entries
    (Execute (worldOf (policyOf ["MIT"] [] []) [("pkgA", GPL); ("pkgB", MIT)]
                (Ok [None; None; Some (0, "no space left on device")])) reporting) <> []
  /\ exists t root pkgs,
       ReadConfig (worldOf (policyOf ["MIT"] [] []) [("pkgA", GPL); ("pkgB", MIT)]
                     (Ok [None; None; Some (0, "no space left on device")])) (File reporting)
       = Ok t
       /\ rootDir (worldOf (policyOf ["MIT"] [] []) [("pkgA", GPL); ("pkgB", MIT)]
                     (Ok [None; None; Some (0, "no space left on device")])) = Ok root
       /\ WalkImports (worldOf (policyOf ["MIT"] [] []) [("pkgA", GPL); ("pkgB", MIT)]
                         (Ok [None; None; Some (0, "no space left on device")])) root
          = Ok pkgs
       /\ (ReportOut reporting = ""
           \/ exists fs,
                Create (worldOf (policyOf ["MIT"] [] []) [("pkgA", GPL); ("pkgB", MIT)]
                          (Ok [None; None; Some (0, "no space left on device")]))
                  (ReportOut reporting) = Ok fs
                /\ healthy 1 fs = true).
Proof.
  assert (logged_entries
            (Execute (worldOf (policyOf ["MIT"] [] []) [("pkgA", GPL); ("pkgB", MIT)]
                        (Ok [None; None; Some (0, "no space left on device")])) reporting)
          <> []) as H.
  { intros H. vm_compute in H. discriminate H. }
  split; [exact H |].
  apply (Execute_judges_after_header _ _ H).
Defined.

(** X6 -- a report file is left only when [ReportOut] is not empty; it
    bears that name and is closed when [Execute] returns, whichever way
    it returns. *)
Theorem report_closed_on_return (w : World) (c : Check) (f : OsFile) :
  reportFile (Execute w c) = Some f ->
  ReportOut c <> "" /\ name f = ReportOut c /\ closed f = true.
Proof.
  destruct (Execute_cases w c) as [[e ->]|(t & root & pkgs & _ & _ & _ & ->)];
    [done |].
  intros Hf.
  destruct (audit_any (SetFormatter c) t
              (rangeOrder w (GetLicenses w root pkgs)) (openReport w c))
    as (_ & Hrep & _).
  destruct (Hrep f Hf) as (Hcl & f0 & Hf0 & Hn).
  apply openReport_inv in Hf0 as (Hne & Hn0 & _).
  split; [done |]. split; [by rewrite Hn | done].
Qed.

Lemma report_closed_on_return_witness :
  reportFile
    (Execute (worldOf (policyOf ["MIT"] [] []) [("pkgA", GPL); ("pkgB", MIT)]
                (Ok [None; Some (3, "no space left on device")])) reporting)
  = Some {| name := "NOTICE.txt";
            contents := licenseReportHeader +:+ nl +:+ nl +:+ "-";
            faults := []; closed := true |}
  /\ closed {| name := "NOTICE.txt";
               contents := licenseReportHeader +:+ nl +:+ nl +:+ "-";
               faults := []; closed := true |} = true.
Proof.
  assert (reportFile
            (Execute (worldOf (policyOf ["MIT"] [] []) [("pkgA", GPL); ("pkgB", MIT)]
                        (Ok [None; Some (3, "no space left on device")])) reporting)
          = Some {| name := "NOTICE.txt";
                    contents := licenseReportHeader +:+ nl +:+ nl +:+ "-";
                    faults := []; closed := true |}) as H.
  { vm_compute. reflexivity. }
  split; [exact H |].
  apply (report_closed_on_return _ _ _ H).
Defined.

(** X7 -- whatever the writes to the report do, the log is the verdicts
    of the first dependencies visited, in the order of the visit: a
    failing write cuts the log short, it changes no verdict and skips no
    dependency in between. *)
Theorem log_is_initial_segment (w : World) (c : Check) (t : Config)
    (lics : gmap string License) :
  Setting w c t lics ->
  exists k,
    k <= size lics
    /\ logged_entries (Execute w c)
       = verdicts (makePolicy t) (take k (rangeOrder w lics)).
Proof.
  intros Hset. rewrite (Execute_Setting _ _ _ _ Hset).
  destruct (audit_any (SetFormatter c) t (rangeOrder w lics) (openReport w c))
    as ((k & Hk & Hlog) & _).
  exists k. split; [|done]. by rewrite <- (Setting_length _ _ _ _ Hset).
Qed.

Lemma log_is_initial_segment_witness :
  Setting (worldOf (policyOf ["MIT"] [] []) [("pkgA", GPL); ("pkgB", MIT)]
             (Ok [None; None; Some (0, "no space left on device")]))
    reporting (policyOf ["MIT"] [] []) (list_to_map [("pkgA", GPL); ("pkgB", MIT)])
  /\ exists k,
       k <= size (list_to_map [("pkgA", GPL); ("pkgB", MIT)] : gmap string License)
       /\ logged_entries
            (Execute (worldOf (policyOf ["MIT"] [] []) [("pkgA", GPL); ("pkgB", MIT)]
                        (Ok [None; None; Some (0, "no space left on device")]))
               reporting)
          = verdicts (makePolicy (policyOf ["MIT"] [] []))
              (take k (rangeOrder
                         (worldOf (policyOf ["MIT"] [] [])
                            [("pkgA", GPL); ("pkgB", MIT)]
                            (Ok [None; None; Some (0, "no space left on device")]))
                         (list_to_map [("pkgA", GPL); ("pkgB", MIT)]))).
Proof.
  assert (Setting (worldOf (policyOf ["MIT"] [] []) [("pkgA", GPL); ("pkgB", MIT)]
                     (Ok [None; None; Some (0, "no space left on device")]))
            reporting (policyOf ["MIT"] [] [])
            (list_to_map [("pkgA", GPL); ("pkgB", MIT)])) as Hset.
  { apply worldOf_Setting. apply (bool_decide_unpack _). vm_compute. exact I. }
  split; [exact Hset |].
  apply (log_is_initial_segment _ _ _ _ Hset).
Defined.

(** X8 -- no false alarm: when the report, if asked for, could be
    created, [Execute] returns the error of a non-approved license only
    if some dependency of the map is non-approved. *)
Theorem failure_names_a_violation (w : World) (c : Check) (t : Config)
    (lics : gmap string License) :
  Setting w c t lics ->
  ReportOut c = "" \/ (exists fs, Create w (ReportOut c) = Ok fs) ->
  returned (Execute w c) = Some NonApprovedError ->
  exists pkg lic,
    lics !! pkg = Some lic /\ evaluate (makePolicy t) pkg lic = NonApproved.
Proof.
  intros Hset Hout. rewrite (Execute_Setting _ _ _ _ Hset). intros Hret.
  destruct (audit_any (SetFormatter c) t (rangeOrder w lics) (openReport w c))
    as (_ & _ & _ & Hviol).
  destruct Hviol as ([pkg lic] & Hin & Hv); [|done|].
  - destruct Hout as [Hno|[fs Hcr]].
    + left. by apply openReport_none.
    + destruct (decide (ReportOut c = "")) as [Hno|Hne].
      * left. by apply openReport_none.
      * right. eexists. by apply openReport_created.
  - exists pkg, lic. split.
    + rewrite (Setting_order _ _ _ _ Hset) in Hin. by apply elem_of_map_to_list in Hin.
    + unfold violates in Hv. simpl in Hv.
      by destruct (evaluate (makePolicy t) pkg lic).
Qed.

Lemma failure_names_a_violation_witness :
  Setting (worldOf (policyOf ["MIT"] [] []) [("pkgA", MIT); ("pkgB", GPL)] (Ok []))
    reporting (policyOf ["MIT"] [] []) (list_to_map [("pkgA", MIT); ("pkgB", GPL)])
  /\ (ReportOut reporting = ""
      \/ exists fs,
           Create (worldOf (policyOf ["MIT"] [] []) [("pkgA", MIT); ("pkgB", GPL)]
                     (Ok [])) (ReportOut reporting) = Ok fs)
  /\ returned (Execute (worldOf (policyOf ["MIT"] [] [])
                          [("pkgA", MIT); ("pkgB", GPL)] (Ok [])) reporting)
     = Some NonApprovedError
  /\ exists pkg lic,
       (list_to_map [("pkgA", MIT); ("pkgB", GPL)] : gmap string License) !! pkg
       = Some lic
       /\ evaluate (makePolicy (policyOf ["MIT"] [] [])) pkg lic = NonApproved.
Proof.
  assert (Setting (worldOf (policyOf ["MIT"] [] []) [("pkgA", MIT); ("pkgB", GPL)] (Ok []))
            reporting (policyOf ["MIT"] [] [])
            (list_to_map [("pkgA", MIT); ("pkgB", GPL)])) as Hset.
  { apply worldOf_Setting. apply (bool_decide_unpack _). vm_compute. exact I. }
  assert (ReportOut reporting = ""
          \/ exists fs,
               Create (worldOf (policyOf ["MIT"] [] []) [("pkgA", MIT); ("pkgB", GPL)]
                         (Ok [])) (ReportOut reporting) = Ok fs) as Hout.
  { right. by exists []. }
  assert (returned (Execute (worldOf (policyOf ["MIT"] [] [])
                               [("pkgA", MIT); ("pkgB", GPL)] (Ok [])) reporting)
          = Some NonApprovedError) as Hret.
  { vm_compute. reflexivity. }
  split; [exact Hset |]. split; [exact Hout |]. split; [exact Hret |].
  apply (failure_names_a_violation _ _ _ _ Hset Hout Hret).
Defined.

(** X9 -- when no dependency of the map is non-approved and no write to
    the report fails, [Execute] returns [nil], with or without report,
    and no record of the log is at the error level. *)
Theorem clean_run_succeeds (w : World) (c : Check) (t : Config)
    (lics : gmap string License) :
  Setting w c t lics ->
  report_sound (S (size lics)) w c ->
  (forall pkg lic, lics !! pkg = Some lic ->
                   evaluate (makePolicy t) pkg lic <> NonApproved) ->
  returned (Execute w c) = None
  /\ length (logged_entries (Execute w c)) = size lics
  /\ forall entry, entry ∈ logged_entries (Execute w c) -> level entry <> ErrorLevel.
Proof.
  intros Hset Hsound Hclean.
  pose proof (Setting_order _ _ _ _ Hset) as Hperm.
  rewrite (Execute_Setting _ _ _ _ Hset).
  rewrite <- (Setting_length _ _ _ _ Hset) in Hsound |- *.
  destruct (audit_sound (SetFormatter c) t _ w c Hsound) as (Hlog & _ & _ & Hnone).
  assert (forall kv, kv ∈ rangeOrder w lics ->
                     evaluate (makePolicy t) kv.1 kv.2 <> NonApproved) as Hall.
  { intros [pkg lic] Hin. apply Hclean. rewrite Hperm in Hin.
    by apply elem_of_map_to_list in Hin. }
  split; [by apply Hnone |]. rewrite Hlog. split.
  - unfold verdicts. by rewrite length_fmap.
  - unfold verdicts. intros entry (kv & -> & Hin)%list_elem_of_fmap.
    specialize (Hall kv Hin). by destruct (evaluate (makePolicy t) kv.1 kv.2).
Qed.

Lemma clean_run_succeeds_witness :
  Setting (worldOf (policyOf ["MIT"] [] ["pkgB"]) [("pkgA", MIT); ("pkgB", GPL)] (Ok []))
    reporting (policyOf ["MIT"] [] ["pkgB"]) (list_to_map [("pkgA", MIT); ("pkgB", GPL)])
  /\ report_sound (S (size (list_to_map [("pkgA", MIT); ("pkgB", GPL)]
                            : gmap string License)))
       (worldOf (policyOf ["MIT"] [] ["pkgB"]) [("pkgA", MIT); ("pkgB", GPL)] (Ok []))
       reporting
  /\ (forall pkg lic,
        (list_to_map [("pkgA", MIT); ("pkgB", GPL)] : gmap string License) !! pkg
        = Some lic ->
        evaluate (makePolicy (policyOf ["MIT"] [] ["pkgB"])) pkg lic <> NonApproved)
  /\ returned (Execute (worldOf (policyOf ["MIT"] [] ["pkgB"])
                          [("pkgA", MIT); ("pkgB", GPL)] (Ok [])) reporting)
     = None.
Proof.
  assert (Setting (worldOf (policyOf ["MIT"] [] ["pkgB"]) [("pkgA", MIT); ("pkgB", GPL)]
                     (Ok []))
            reporting (policyOf ["MIT"] [] ["pkgB"])
            (list_to_map [("pkgA", MIT); ("pkgB", GPL)])) as Hset.
  { apply worldOf_Setting. apply (bool_decide_unpack _). vm_compute. exact I. }
  assert (report_sound (S (size (list_to_map [("pkgA", MIT); ("pkgB", GPL)]
                                 : gmap string License)))
            (worldOf (policyOf ["MIT"] [] ["pkgB"]) [("pkgA", MIT); ("pkgB", GPL)] (Ok []))
            reporting) as Hsound.
  { right. exists []. split; reflexivity. }
  assert (forall pkg lic,
            (list_to_map [("pkgA", MIT); ("pkgB", GPL)] : gmap string License) !! pkg
            = Some lic ->
            evaluate (makePolicy (policyOf ["MIT"] [] ["pkgB"])) pkg lic <> NonApproved)
    as Hclean.
  { intros pkg lic Hl. apply elem_of_list_to_map_2 in Hl.
    apply elem_of_cons in Hl as [[= -> ->]|Hl].
    - intros H. vm_compute in H. discriminate H.
    - apply elem_of_cons in Hl as [[= -> ->]|Hl].
      + intros H. vm_compute in H. discriminate H.
      + by apply elem_of_nil in Hl. }
  split; [exact Hset |]. split; [exact Hsound |]. split; [exact Hclean |].
  apply (clean_run_succeeds _ _ _ _ Hset Hsound Hclean).
Defined.

(** X10 -- without a report the result tells the verdicts: [Execute]
    returns the error of a non-approved license exactly when some
    dependency of the map is non-approved, wherever it comes in the
    visit, and [nil] exactly when none is. *)
Theorem result_without_report (w : World) (c : Check) (t : Config)
    (lics : gmap string License) :
  Setting w c t lics ->
  ReportOut c = "" ->
  (returned (Execute w c) = Some NonApprovedError
   <-> exists pkg lic, lics !! pkg = Some lic
                       /\ evaluate (makePolicy t) pkg lic = NonApproved)
  /\ (returned (Execute w c) = None
      <-> forall pkg lic, lics !! pkg = Some lic
                          -> evaluate (makePolicy t) pkg lic <> NonApproved)
  /\ reportFile (Execute w c) = None.
Proof.
  intros Hset Hno. destruct (Execute_plain_fails_iff w c t lics Hset Hno) as [H1 H2].
  split; [done |]. split; [done |].
  by rewrite (Execute_Setting _ _ _ _ Hset), (openReport_none _ _ Hno), audit_plain.
Qed.

Lemma result_without_report_witness :
  Setting (worldOf (policyOf ["MIT"] [] []) [("pkgA", GPL); ("pkgB", MIT)] (Ok []))
    plain (policyOf ["MIT"] [] []) (list_to_map [("pkgA", GPL); ("pkgB", MIT)])
  /\ ReportOut plain = ""
  /\ reportFile (Execute (worldOf (policyOf ["MIT"] [] [])
                            [("pkgA", GPL); ("pkgB", MIT)] (Ok [])) plain) = None.
Proof.
  assert (Setting (worldOf (policyOf ["MIT"] [] []) [("pkgA", GPL); ("pkgB", MIT)] (Ok []))
            plain (policyOf ["MIT"] [] [])
            (list_to_map [("pkgA", GPL); ("pkgB", MIT)])) as Hset.
  { apply worldOf_Setting. apply (bool_decide_unpack _). vm_compute. exact I. }
  split; [exact Hset |]. split; [reflexivity |].
  apply (result_without_report _ _ _ _ Hset). reflexivity.
Defined.

(** ** The policy *)

Lemma makeMap_lookup (l : list string) (k : string) :
  makeMap l !! k = if decide (k ∈ l) then Some true else None.
Proof. unfold makeMap. by rewrite makeMap_from, lookup_empty. Qed.

Lemma makeMap_members (l1 l2 : list string) :
  same_members l1 l2 -> makeMap l1 = makeMap l2.
Proof.
  intros H. apply map_eq. intros k. rewrite !makeMap_lookup.
  destruct (decide (k ∈ l1)) as [H1|H1], (decide (k ∈ l2)) as [H2|H2];
    [done | exfalso; apply H2; by apply H | exfalso; apply H1; by apply H | done].
Qed.

(** The maps of exceptions hold [true] only. *)
Lemma makeExceptions_values (l : list string)
    (acc : gmap string bool * gmap string bool) (k : string) (b : bool) :
  ((foldl addException acc l).1 !! k = Some b -> b = true \/ acc.1 !! k = Some b)
  /\ ((foldl addException acc l).2 !! k = Some b -> b = true \/ acc.2 !! k = Some b).
Proof.
  revert acc. induction l as [|v l IH]; intros acc; simpl; [by split; right |].
  destruct (IH (addException acc v)) as [IH1 IH2].
  unfold addException in *.
  destruct (strings.HasSuffix v "/..."); simpl in *; split; intros H.
  - by apply IH1.
  - destruct (IH2 H) as [?|H']; [by left |].
    apply lookup_insert_Some in H' as [[_ <-]|[_ ?]]; [by left | by right].
  - destruct (IH1 H) as [?|H']; [by left |].
    apply lookup_insert_Some in H' as [[_ <-]|[_ ?]]; [by left | by right].
  - by apply IH2.
Qed.

Lemma makeExceptions_lookup (l : list string) (k : string) :
  (makeExceptions l).1 !! k
  = (if exists_ (makeExceptions l).1 k then Some true else None)
  /\ (makeExceptions l).2 !! k
     = (if exists_ (makeExceptions l).2 k then Some true else None).
Proof.
  unfold exists_, makeExceptions.
  split.
  - destruct ((foldl addException (∅, ∅) l).1 !! k) as [b|] eqn:E.
    + rewrite bool_decide_eq_true_2 by done.
      destruct (makeExceptions_values l (∅, ∅) k b) as [H _].
      destruct (H E) as [->|H']; [done | simpl in H'; by rewrite lookup_empty in H'].
    + rewrite bool_decide_eq_false_2; [done | by intros [? ?]].
  - destruct ((foldl addException (∅, ∅) l).2 !! k) as [b|] eqn:E.
    + rewrite bool_decide_eq_true_2 by done.
      destruct (makeExceptions_values l (∅, ∅) k b) as [_ H].
      destruct (H E) as [->|H']; [done | simpl in H'; by rewrite lookup_empty in H'].
    + rewrite bool_decide_eq_false_2; [done | by intros [? ?]].
Qed.

Lemma makeExceptions_members (l1 l2 : list string) :
  same_members l1 l2 -> makeExceptions l1 = makeExceptions l2.
Proof.
  intros H.
  assert (forall k, exists_ (makeExceptions l1).1 k = exists_ (makeExceptions l2).1 k)
    as H1.
  { intros k. apply eq_true_iff_eq. rewrite !makeExceptions_exact.
    split; intros [? ?]; (split; [by apply H | done]). }
  assert (forall k, exists_ (makeExceptions l1).2 k = exists_ (makeExceptions l2).2 k)
    as H2.
  { intros k. apply eq_true_iff_eq. unfold exists_.
    rewrite !bool_decide_eq_true, !makeExceptions_wildcard.
    split; intros (v & Hv & ?); exists v; (split; [by apply H | done]). }
  assert ((makeExceptions l1).1 = (makeExceptions l2).1) as Ha.
  { apply map_eq. intros k.
    destruct (makeExceptions_lookup l1 k) as [-> _].
    destruct (makeExceptions_lookup l2 k) as [-> _]. by rewrite H1. }
  assert ((makeExceptions l1).2 = (makeExceptions l2).2) as Hb.
  { apply map_eq. intros k.
    destruct (makeExceptions_lookup l1 k) as [_ ->].
    destruct (makeExceptions_lookup l2 k) as [_ ->]. by rewrite H2. }
  destruct (makeExceptions l1), (makeExceptions l2). simpl in *. by subst.
Qed.

(** X11 -- the policy is made of sets: two configurations whose three
    lists have the same members, in any order and with any repetition,
    give the same maps, hence the same verdicts, log, report and result on
    every input. *)
Theorem policy_depends_on_members (t1 t2 : Config) :
  same_members (Whitelist t1) (Whitelist t2) ->
  same_members (Blacklist t1) (Blacklist t2) ->
  same_members (Exceptions t1) (Exceptions t2) ->
  makePolicy t1 = makePolicy t2
  /\ (forall pkg lic, evaluate (makePolicy t1) pkg lic = evaluate (makePolicy t2) pkg lic)
  /\ (forall fm order out, audit fm t1 order out = audit fm t2 order out).
Proof.
  intros Hw Hb He.
  assert (makePolicy t1 = makePolicy t2) as Hp.
  { unfold makePolicy.
    by rewrite (makeMap_members _ _ Hw), (makeMap_members _ _ Hb),
         (makeExceptions_members _ _ He). }
  split; [done |]. split; [intros; by rewrite Hp |].
  intros fm order out. unfold audit. by rewrite Hp.
Qed.

Lemma policy_depends_on_members_witness :
  same_members (Whitelist (policyOf ["MIT"; "BSD"; "MIT"] ["GPL-3.0"] ["a/..."; "b"]))
    (Whitelist (policyOf ["BSD"; "MIT"] ["GPL-3.0"; "GPL-3.0"] ["b"; "a/..."]))
  /\ same_members (Blacklist (policyOf ["MIT"; "BSD"; "MIT"] ["GPL-3.0"] ["a/..."; "b"]))
       (Blacklist (policyOf ["BSD"; "MIT"] ["GPL-3.0"; "GPL-3.0"] ["b"; "a/..."]))
  /\ same_members (Exceptions (policyOf ["MIT"; "BSD"; "MIT"] ["GPL-3.0"] ["a/..."; "b"]))
       (Exceptions (policyOf ["BSD"; "MIT"] ["GPL-3.0"; "GPL-3.0"] ["b"; "a/..."]))
  /\ makePolicy (policyOf ["MIT"; "BSD"; "MIT"] ["GPL-3.0"] ["a/..."; "b"])
     = makePolicy (policyOf ["BSD"; "MIT"] ["GPL-3.0"; "GPL-3.0"] ["b"; "a/..."]).
Proof.
  assert (same_members ["MIT"; "BSD"; "MIT"] ["BSD"; "MIT"]) as Hw.
  { intros x. set_solver. }
  assert (same_members ["GPL-3.0"] ["GPL-3.0"; "GPL-3.0"]) as Hb.
  { intros x. set_solver. }
  assert (same_members ["a/..."; "b"] ["b"; "a/..."]) as He.
  { intros x. set_solver. }
  split; [exact Hw |]. split; [exact Hb |]. split; [exact He |].
  apply (policy_depends_on_members
           (policyOf ["MIT"; "BSD"; "MIT"] ["GPL-3.0"] ["a/..."; "b"])
           (policyOf ["BSD"; "MIT"] ["GPL-3.0"; "GPL-3.0"] ["b"; "a/..."]) Hw Hb He).
Defined.

(** X12 -- an exception passes a blacklisted license: a dependency whose
    license type is in the blacklist and which an exact or a prefix
    exception covers is Exceptioned, not NonApproved. *)
Theorem exception_passes_blacklisted (t : Config) (pkg : string) (lic : License) :
  Type_ lic ∈ Blacklist t ->
  exactException t pkg \/ prefixException t pkg ->
  evaluate (makePolicy t) pkg lic = Exceptioned.
Proof.
  intros Hb Hex. apply evaluate_Exceptioned. split; [by intros [_ ?] | tauto].
Qed.

Lemma exception_passes_blacklisted_witness :
  Type_ GPL ∈ Blacklist (policyOf ["MIT"] ["GPL-3.0"] ["github.com/foo/bar"])
  /\ (exactException (policyOf ["MIT"] ["GPL-3.0"] ["github.com/foo/bar"])
        "github.com/foo/bar"
      \/ prefixException (policyOf ["MIT"] ["GPL-3.0"] ["github.com/foo/bar"])
           "github.com/foo/bar")
  /\ evaluate (makePolicy (policyOf ["MIT"] ["GPL-3.0"] ["github.com/foo/bar"]))
       "github.com/foo/bar" GPL = Exceptioned.
Proof.
  assert (exactException (policyOf ["MIT"] ["GPL-3.0"] ["github.com/foo/bar"])
            "github.com/foo/bar") as He.
  { split; [apply list_elem_of_here | reflexivity]. }
  split; [apply list_elem_of_here |]. split; [left; exact He |].
  apply (exception_passes_blacklisted
           (policyOf ["MIT"] ["GPL-3.0"] ["github.com/foo/bar"])
           "github.com/foo/bar" GPL); [apply list_elem_of_here | left; exact He].
Defined.

(** X13 -- a wildcard entry [p/...], where [p] does not end in ['/'] or
    ['.'], covers every identifier that begins with the characters of
    [p]: [p] itself and what lies under [p/], and also any identifier that
    merely continues [p], such as [pbar]; none of them is NonApproved. *)
Theorem wildcard_covers_every_continuation (t : Config) (p rest : string)
    (lic : License) :
  (p +:+ "/...") ∈ Exceptions t ->
  ends_clean "/..." p = true ->
  prefixException t (p +:+ rest)
  /\ evaluate (makePolicy t) (p +:+ rest) lic <> NonApproved
  /\ (evaluate (makePolicy t) (p +:+ rest) lic = Exceptioned
      <-> ~ (Type_ lic ∈ Whitelist t /\ Type_ lic ∉ Blacklist t)).
Proof.
  intros Hin Hp.
  assert (prefixException t (p +:+ rest)) as Hpre.
  { exists (p +:+ "/..."). split; [done |]. split.
    - apply HasSuffix_iff. by exists p.
    - rewrite TrimRight_marker_clean by done. apply HasPrefix_iff. by exists rest. }
  split; [done |]. split.
  - intros (_ & Hn & _)%evaluate_NonApproved. done.
  - rewrite evaluate_Exceptioned. split; [by intros [? _] | intros ?; split; auto].
Qed.

Lemma wildcard_covers_every_continuation_witness :
  ("github.com/foo" +:+ "/...") ∈ Exceptions (policyOf [] [] ["github.com/foo/..."])
  /\ ends_clean "/..." "github.com/foo" = true
  /\ evaluate (makePolicy (policyOf [] [] ["github.com/foo/..."]))
       ("github.com/foo" +:+ "bar") GPL <> NonApproved.
Proof.
  split; [apply list_elem_of_here |]. split; [reflexivity |].
  apply (wildcard_covers_every_continuation
           (policyOf [] [] ["github.com/foo/..."]) "github.com/foo" "bar" GPL);
    [apply list_elem_of_here | reflexivity].
Defined.

(** X14 -- exact entries cover themselves only: when no entry of the
    exception list ends in the marker, a dependency is Exceptioned exactly
    when it is not approved and its identifier is an entry of the list;
    an identifier under an entry is not covered. *)
Theorem exact_entries_cover_themselves_only (t : Config) (pkg : string)
    (lic : License) :
  (forall v, v ∈ Exceptions t -> strings.HasSuffix v "/..." = false) ->
  (evaluate (makePolicy t) pkg lic = Exceptioned
   <-> ~ (Type_ lic ∈ Whitelist t /\ Type_ lic ∉ Blacklist t)
       /\ pkg ∈ Exceptions t)
  /\ (evaluate (makePolicy t) pkg lic = NonApproved
      <-> ~ (Type_ lic ∈ Whitelist t /\ Type_ lic ∉ Blacklist t)
          /\ pkg ∉ Exceptions t).
Proof.
  intros Hplain.
  assert (~ prefixException t pkg) as Hnp.
  { intros (v & Hv & Hs & _). rewrite (Hplain v Hv) in Hs. done. }
  assert (exactException t pkg <-> pkg ∈ Exceptions t) as Hex.
  { split; [by intros [? _] | intros H; split; [done | by apply Hplain]]. }
  rewrite evaluate_Exceptioned, evaluate_NonApproved, Hex. split; split; tauto.
Qed.

Lemma exact_entries_cover_themselves_only_witness :
  (forall v, v ∈ Exceptions (policyOf [] [] ["github.com/foo"]) ->
             strings.HasSuffix v "/..." = false)
  /\ (evaluate (makePolicy (policyOf [] [] ["github.com/foo"])) "github.com/foo/bar" GPL
      = NonApproved
      <-> ~ (Type_ GPL ∈ Whitelist (policyOf [] [] ["github.com/foo"])
             /\ Type_ GPL ∉ Blacklist (policyOf [] [] ["github.com/foo"]))
          /\ "github.com/foo/bar" ∉ Exceptions (policyOf [] [] ["github.com/foo"])).
Proof.
  assert (forall v, v ∈ Exceptions (policyOf [] [] ["github.com/foo"]) ->
                    strings.HasSuffix v "/..." = false) as H.
  { intros v Hv. apply list_elem_of_singleton in Hv as ->. reflexivity. }
  split; [exact H |].
  apply (exact_entries_cover_themselves_only
           (policyOf [] [] ["github.com/foo"]) "github.com/foo/bar" GPL H).
Defined.

(** X15 -- the blacklist only takes back what the whitelist grants: for a
    license type that is not in the whitelist the verdict is never
    Approved and is the same whatever the blacklist holds. *)
Theorem blacklist_matters_for_whitelisted_only (t : Config) (bl : list string)
    (pkg : string) (lic : License) :
  Type_ lic ∉ Whitelist t ->
  evaluate (makePolicy t) pkg lic <> Approved
  /\ evaluate (makePolicy {| Whitelist := Whitelist t; Blacklist := bl;
                             Exceptions := Exceptions t |}) pkg lic
     = evaluate (makePolicy t) pkg lic.
Proof.
  intros Hw. split; [by intros [? _]%evaluate_Approved |].
  destruct (evaluate_cases t pkg lic) as [[[? _] _]|[(_ & Hex & ->)|(_ & Hp & He & ->)]];
    [done | |].
  - apply evaluate_Exceptioned. split; [by intros [? _] | done].
  - apply evaluate_NonApproved. split; [by intros [? _] | done].
Qed.

Lemma blacklist_matters_for_whitelisted_only_witness :
  (Type_ GPL ∉ Whitelist (policyOf ["MIT"] [] []))
  /\ evaluate (makePolicy (policyOf ["MIT"] [] [])) "pkgA" GPL <> Approved.
Proof.
  assert (Type_ GPL ∉ Whitelist (policyOf ["MIT"] [] [])) as H.
  { intros Hin. apply list_elem_of_singleton in Hin. discriminate Hin. }
  split; [exact H |].
  apply (blacklist_matters_for_whitelisted_only (policyOf ["MIT"] [] [])
           ["GPL-3.0"] "pkgA" GPL H).
Defined.

(** X16 -- the loop over the wildcard prefixes gives the same answer in
    whatever order [range] yields them: it leaves by
    [continue PackageList] exactly when some prefix of the map is a prefix
    of the identifier. *)
Theorem wildcard_loop_any_order (m : gmap string bool) (pkg : string)
    (wcs : list string) :
  wcs ≡ₚ (map_to_list m).*1 ->
  rangeWildcard pkg wcs = rangeWildcard pkg (map_to_list m).*1
  /\ (rangeWildcard pkg wcs = true
      <-> exists wc, is_Some (m !! wc) /\ strings.HasPrefix pkg wc = true).
Proof.
  intros Hp. rewrite (rangeWildcard_order pkg _ _ Hp). split; [done |].
  rewrite <- wildcard_branch, andb_true_iff, bool_decide_eq_true.
  split; [|by intros [_ ?]]. intros H. split; [|done].
  apply rangeWildcard_true in H as (wc & Hin & _).
  destruct (decide (size m = 0)) as [Hz|Hz]; [|lia].
  apply map_size_empty_iff in Hz. subst m.
  rewrite map_to_list_empty in Hin. by apply elem_of_nil in Hin.
Qed.

Lemma wildcard_loop_any_order_witness :
  ["b/c"; "a"] ≡ₚ (map_to_list (makeExceptions ["a/..."; "b/c/..."]).2).*1
  /\ rangeWildcard "b/c/x" ["b/c"; "a"]
     = rangeWildcard "b/c/x" (map_to_list (makeExceptions ["a/..."; "b/c/..."]).2).*1.
Proof.
  assert (["b/c"; "a"] ≡ₚ (map_to_list (makeExceptions ["a/..."; "b/c/..."]).2).*1) as H.
  { vm_compute. first [reflexivity | apply perm_swap]. }
  split; [exact H |].
  exact (proj1 (wildcard_loop_any_order _ "b/c/x" _ H)).
Defined.

(** ** [List.Execute] *)

Lemma rangeLicenses_eq (order : list (string * License)) (log : list ListEntry) :
  rangeLicenses log order = log ++ (found <$> order).
Proof.
  revert log. induction order as [|kv order IH]; intros log; simpl.
  - by rewrite app_nil_r.
  - by rewrite IH, <- app_assoc.
Qed.

Lemma found_package (order : list (string * License)) :
  listPackage <$> (found <$> order) = order.*1.
Proof.
  rewrite <- list_fmap_compose. apply list_fmap_ext.
  intros i [pkg lic] _. unfold found. simpl. by destruct (Recognized lic).
Qed.

(** X17 -- once the root is found and the imports are walked,
    [List.Execute] returns [nil] whatever the licenses are, and logs one
    record for each dependency of the map: at the info level, with the
    license type, when the type is not empty, and a warning without
    license field when it is. *)
Theorem List_logs_every_dependency (w : World) (l : ListCmd)
    (lics : gmap string License) :
  Located w lics ->
  listReturned (List_Execute w l) = None
  /\ listed (List_Execute w l) = found <$> rangeOrder w lics
  /\ listPackage <$> listed (List_Execute w l) ≡ₚ (map_to_list lics).*1
  /\ NoDup (listPackage <$> listed (List_Execute w l))
  /\ (forall pkg lic,
        lics !! pkg = Some lic ->
        (if String.eqb (Type_ lic) ""
         then {| listLevel := WarnLevel; listPackage := pkg; listLicense := None;
                 listMessage := "Did not find recognized license!" |}
         else {| listLevel := InfoLevel; listPackage := pkg;
                 listLicense := Some (Type_ lic); listMessage := "Found License" |})
        ∈ listed (List_Execute w l)).
Proof.
  intros (root & pkgs & Hr & Hw & Hl & Hperm).
  unfold List_Execute. rewrite Hr, Hw, Hl. cbn [listReturned listed].
  rewrite rangeLicenses_eq, app_nil_l, found_package.
  split; [done |]. split; [done |]. split; [by rewrite Hperm |].
  split; [rewrite Hperm; apply NoDup_fst_map_to_list |].
  intros pkg lic Hlic. apply list_elem_of_fmap. exists (pkg, lic). split.
  - unfold found, Recognized. simpl. by destruct (String.eqb (Type_ lic) "").
  - rewrite Hperm. by apply elem_of_map_to_list.
Qed.

Lemma worldOf_Located (t : Config) (order : list (string * License))
    (out : result (list (option (nat * string)))) :
  NoDup order.*1 -> Located (worldOf t order out) (list_to_map order).
Proof.
  intros Hnd. eexists _, _. repeat split. simpl.
  symmetry. by apply map_to_list_to_map.
Qed.

Lemma List_logs_every_dependency_witness :
  Located (worldOf (policyOf [] [] []) [("pkgA", MIT); ("pkgX", undetected)] (Ok []))
    (list_to_map [("pkgA", MIT); ("pkgX", undetected)])
  /\ listReturned
       (List_Execute
          (worldOf (policyOf [] [] []) [("pkgA", MIT); ("pkgX", undetected)] (Ok []))
          {| ListNoColor := true |}) = None.
Proof.
  assert (Located
            (worldOf (policyOf [] [] []) [("pkgA", MIT); ("pkgX", undetected)] (Ok []))
            (list_to_map [("pkgA", MIT); ("pkgX", undetected)])) as H.
  { apply worldOf_Located. apply (bool_decide_unpack _). vm_compute. exact I. }
  split; [exact H |].
  apply (List_logs_every_dependency _ {| ListNoColor := true |} _ H).
Defined.

(** X18 -- [List.Execute] fails exactly when [rootDir] or [WalkImports]
    fails, with that error and an empty log; it does not read the
    configuration, and no license makes it fail. *)
Theorem List_fails_iff (w : World) (l : ListCmd) (e : error) :
  (listReturned (List_Execute w l) = Some e
   <-> rootDir w = Err e
       \/ exists root, rootDir w = Ok root /\ WalkImports w root = Err e)
  /\ (listReturned (List_Execute w l) = Some e -> listed (List_Execute w l) = [])
  /\ List_Execute (withReadConfig w (Err e)) l = List_Execute w l.
Proof.
  unfold List_Execute.
  change (rootDir (withReadConfig w (Err e))) with (rootDir w).
  destruct (rootDir w) as [root|e0] eqn:Hr.
  - change (WalkImports (withReadConfig w (Err e)) root) with (WalkImports w root).
    destruct (WalkImports w root) as [pkgs|e1] eqn:Hw; cbn [listReturned listed].
    + split; [|done]. split; [done |].
      intros [?|(root' & ? & ?)]; congruence.
    + split; [|done]. split.
      * intros [= ->]. right. by exists root.
      * intros [?|(root' & ? & ?)]; congruence.
  - cbn [listReturned listed]. split; [|done]. split.
    + intros [= ->]. by left.
    + intros [?|(root' & ? & ?)]; congruence.
Qed.

(** ** [setQuiet] *)

Lemma shown_verdicts (p : Policy) (order : list (string * License)) :
  shown ErrorLevel (verdicts p order)
  = verdicts p (List.filter (violates p) order).
Proof.
  induction order as [|kv order IH]; [done |].
  change (verdicts p (kv :: order))
    with (logged (evaluate p kv.1 kv.2) kv.1 kv.2 :: verdicts p order).
  unfold shown in *. cbn [List.filter]. rewrite IH.
  assert (violates p kv = match evaluate p kv.1 kv.2 with
                          | NonApproved => true
                          | _ => false
                          end) as -> by reflexivity.
  destruct (evaluate p kv.1 kv.2) eqn:E; [reflexivity | reflexivity |].
  unfold verdicts. rewrite fmap_cons, E. reflexivity.
Qed.

(** X19 -- in quiet mode ([setQuiet] puts the logger at the error level
    and returns [nil]) a run that no write interrupts writes the records
    of the non-approved dependencies, in the order of the visit, and
    nothing about the approved and the exceptioned ones; at the info
    level every record is written. *)
Theorem quiet_shows_violations_only (w : World) (c : Check) (t : Config)
    (lics : gmap string License) :
  Setting w c t lics ->
  report_sound (S (size lics)) w c ->
  setQuiet.2 = None
  /\ shown setQuiet.1 (logged_entries (Execute w c))
     = verdicts (makePolicy t)
         (List.filter (violates (makePolicy t)) (rangeOrder w lics))
  /\ (forall entry, entry ∈ shown setQuiet.1 (logged_entries (Execute w c)) ->
                    verdictOf entry = NonApproved)
  /\ shown InfoLevel (logged_entries (Execute w c)) = logged_entries (Execute w c).
Proof.
  intros Hset Hsound.
  rewrite (Execute_Setting _ _ _ _ Hset).
  rewrite <- (Setting_length _ _ _ _ Hset) in Hsound.
  destruct (audit_sound (SetFormatter c) t _ w c Hsound) as (-> & _).
  cbn [setQuiet fst snd]. rewrite shown_verdicts.
  split; [done |]. split; [done |]. split.
  - unfold verdicts. intros entry (kv & -> & Hin)%list_elem_of_fmap.
    apply list_elem_of_In, filter_In in Hin as [_ Hv]. unfold violates in Hv.
    by destruct (evaluate (makePolicy t) kv.1 kv.2).
  - unfold shown. apply forallb_filter_id. apply forallb_forall.
    intros entry _. by destruct (level entry).
Qed.

Lemma quiet_shows_violations_only_witness :
  Setting (worldOf (policyOf ["MIT"] [] ["pkgC"])
             [("pkgA", MIT); ("pkgB", GPL); ("pkgC", GPL)] (Ok []))
    plain (policyOf ["MIT"] [] ["pkgC"])
    (list_to_map [("pkgA", MIT); ("pkgB", GPL); ("pkgC", GPL)])
  /\ report_sound
       (S (size (list_to_map [("pkgA", MIT); ("pkgB", GPL); ("pkgC", GPL)]
                 : gmap string License)))
       (worldOf (policyOf ["MIT"] [] ["pkgC"])
          [("pkgA", MIT); ("pkgB", GPL); ("pkgC", GPL)] (Ok [])) plain
  /\ shown setQuiet.1
       (logged_entries
          (Execute (worldOf (policyOf ["MIT"] [] ["pkgC"])
                      [("pkgA", MIT); ("pkgB", GPL); ("pkgC", GPL)] (Ok [])) plain))
     = verdicts (makePolicy (policyOf ["MIT"] [] ["pkgC"]))
         (List.filter (violates (makePolicy (policyOf ["MIT"] [] ["pkgC"])))
            (rangeOrder
               (worldOf (policyOf ["MIT"] [] ["pkgC"])
                  [("pkgA", MIT); ("pkgB", GPL); ("pkgC", GPL)] (Ok []))
               (list_to_map [("pkgA", MIT); ("pkgB", GPL); ("pkgC", GPL)]))).
Proof.
  assert (Setting (worldOf (policyOf ["MIT"] [] ["pkgC"])
                     [("pkgA", MIT); ("pkgB", GPL); ("pkgC", GPL)] (Ok []))
            plain (policyOf ["MIT"] [] ["pkgC"])
            (list_to_map [("pkgA", MIT); ("pkgB", GPL); ("pkgC", GPL)])) as Hset.
  { apply worldOf_Setting. apply (bool_decide_unpack _). vm_compute. exact I. }
  assert (report_sound
            (S (size (list_to_map [("pkgA", MIT); ("pkgB", GPL); ("pkgC", GPL)]
                      : gmap string License)))
            (worldOf (policyOf ["MIT"] [] ["pkgC"])
               [("pkgA", MIT); ("pkgB", GPL); ("pkgC", GPL)] (Ok [])) plain) as Hsound.
  { left. reflexivity. }
  split; [exact Hset |]. split; [exact Hsound |].
  apply (quiet_shows_violations_only _ _ _ _ Hset Hsound).
Defined.



(** X21 -- in quiet mode [List.Execute] writes no record at all, whatever
    the licenses are: its records are at the info and warning levels. *)
Theorem quiet_list_shows_nothing (w : World) (l : ListCmd) :
  listShown setQuiet.1 (listed (List_Execute w l)) = []
  /\ listShown InfoLevel (listed (List_Execute w l)) = listed (List_Execute w l).
Proof.
  assert (forall order,
            listShown ErrorLevel (found <$> order) = []
            /\ listShown InfoLevel (found <$> order) = found <$> order) as H.
  { induction order as [|kv order [IH1 IH2]]; [done |].
    unfold listShown in *. rewrite fmap_cons. simpl. rewrite IH1, IH2.
    unfold found. by destruct (Recognized kv.2). }
  unfold List_Execute.
  destruct (rootDir w) as [root|e]; [|done].
  destruct (WalkImports w root) as [pkgs|e]; [|done].
  cbn [listed setQuiet fst]. rewrite rangeLicenses_eq, app_nil_l. apply H.
Qed.
